(** * SafeOceanProject/App: the API access layer, embedded and verified

    The development follows [src/services/ApiService.js] (the axios client
    with its request interceptor, [login], [register], [logout],
    [getStoredUser], [getWeather]) and [ReportHazardScreen.handleSubmit],
    and then the callers of the service: the other handlers of
    [ReportHazardScreen], the handlers of [WeatherScreen.js], and the
    login and registration form of the application, which talks to the
    server with [fetch].

    Conventions of the embedding.
    - A JavaScript string is kept as its UTF-8 text in a Rocq [string]; the
      operations the service applies to strings (emptiness, concatenation,
      JSON text, percent-encoding, trimming) are defined on that text.
      A string with an unpaired surrogate has no such text and is outside
      the embedding; [unpaired_surrogate] recognises the octets such a
      surrogate would have, for the statement that has to leave them out.
    - A number is a double.  A finite one other than -0 is kept as the
      decimal that [Number::toString] writes for it, the shortest one that
      names the double: [Int] when it is integral and [Dec] otherwise.
      Negative zero and the two infinities are values of their own.
      [JSON.parse] rounds the decimal of a literal to the nearest double,
      ties to even, and so reaches -0 and the infinities; [JSON.stringify]
      writes a number that is not finite as [null] and -0 as [0].
    - A JavaScript object that came out of JSON is its list of own
      properties in enumeration order.
    - [AsyncStorage] is a finite map from keys to strings, and reliable;
      the network is an oracle from the requests made so far and the
      request that is dispatched to what comes back.  The requests are
      recorded as the axios instance hands them to its adapter;
      [transmitted] is what the adapter makes of one.
    - A handler of a screen is taken from the event to the state in which
      the screen rests when everything the handler started has finished;
      the alerts it shows are part of its result.  The geolocation service
      calls back once, with a position or with an error. *)

From Stdlib Require Import ZArith NArith List String Ascii Bool Lia.
From Stdlib Require Import DecimalFacts DecimalPos DecimalN.
From stdpp Require Import gmap strings.
Import ListNotations.

Local Open Scope Z_scope.
Local Open Scope list_scope.

(** ** Characters and text *)

Module Text.

Definition ord (c : ascii) : N := N_of_ascii c.
Definition chr (n : N) : ascii := ascii_of_N n.

Definition chars (s : string) : list ascii := list_ascii_of_string s.
Definition text (l : list ascii) : string := string_of_list_ascii l.

Definition is_empty (s : string) : bool :=
  match s with EmptyString => true | String _ _ => false end.

(** The four characters JSON calls white space. *)
Definition is_ws (c : ascii) : bool :=
  Ascii.eqb c " " || Ascii.eqb c "009" || Ascii.eqb c "010" || Ascii.eqb c "013".

Fixpoint skip_ws (s : list ascii) : list ascii :=
  match s with
  | c :: r => if is_ws c then skip_ws r else s
  | [] => []
  end.

(** Hexadecimal digits: written in lower case by [JSON.stringify], in upper
    case by [encodeURIComponent], read in either case by [JSON.parse]. *)
Definition hex_lower (n : N) : ascii :=
  if (n <? 10)%N then chr (48 + n) else chr (87 + n).
Definition hex_upper (n : N) : ascii :=
  if (n <? 10)%N then chr (48 + n) else chr (55 + n).

Definition hex_value (c : ascii) : option N :=
  let n := ord c in
  if (48 <=? n)%N && (n <=? 57)%N then Some (n - 48)%N
  else if (97 <=? n)%N && (n <=? 102)%N then Some (n - 87)%N
  else if (65 <=? n)%N && (n <=? 70)%N then Some (n - 55)%N
  else None.

(** UTF-8 of one code point. *)
Definition utf8 (cp : N) : list ascii :=
  if (cp <? 128)%N then [chr cp]
  else if (cp <? 2048)%N then
    [chr (192 + cp / 64); chr (128 + cp mod 64)]
  else if (cp <? 65536)%N then
    [chr (224 + cp / 4096); chr (128 + (cp / 64) mod 64); chr (128 + cp mod 64)]
  else
    [chr (240 + cp / 262144); chr (128 + (cp / 4096) mod 64);
     chr (128 + (cp / 64) mod 64); chr (128 + cp mod 64)].

End Text.
Import Text.

(** ** JSON values *)

Inductive number :=
| Int (n : Z)                   (* the integer n *)
| Dec (m : Z) (k : positive)    (* m / 10^k, with m not a multiple of 10 *)
| NegZero                       (* -0 *)
| Infinity (negative : bool).   (* Infinity and -Infinity *)

Unset Elimination Schemes.
Inductive value :=
| VNull
| VBool (b : bool)
| VNum (n : number)
| VStr (s : string)
| VArr (xs : list value)
| VObj (ps : list (string * value)).
Set Elimination Schemes.

Section value_induction.
Variable P : value -> Prop.
Hypothesis Hnull : P VNull.
Hypothesis Hbool : forall b, P (VBool b).
Hypothesis Hnum : forall n, P (VNum n).
Hypothesis Hstr : forall s, P (VStr s).
Hypothesis Harr : forall xs, Forall P xs -> P (VArr xs).
Hypothesis Hobj : forall ps, Forall (fun p => P (snd p)) ps -> P (VObj ps).

Fixpoint value_ind (v : value) : P v :=
  match v with
  | VNull => Hnull
  | VBool b => Hbool b
  | VNum n => Hnum n
  | VStr s => Hstr s
  | VArr xs =>
      Harr xs ((fix go (l : list value) : Forall P l :=
                  match l with
                  | [] => List.Forall_nil P
                  | x :: l' => List.Forall_cons P x l' (value_ind x) (go l')
                  end) xs)
  | VObj ps =>
      Hobj ps ((fix go (l : list (string * value)) : Forall (fun p => P (snd p)) l :=
                  match l with
                  | [] => List.Forall_nil _
                  | p :: l' => List.Forall_cons _ p l' (value_ind (snd p)) (go l')
                  end) ps)
  end.
End value_induction.

(** [obj[k]] for a key an object may own; [None] is [undefined]. *)
Fixpoint own_property (k : string) (ps : list (string * value)) : option value :=
  match ps with
  | [] => None
  | (k', v) :: ps' => if String.eqb k k' then Some v else own_property k ps'
  end.

(** [v.k] for the property names the service reads ([user], [token],
    [message], [id]): none of them is defined on a prototype or on a
    primitive wrapper, so only an object's own property can answer. *)
Definition get_prop (v : value) (k : string) : option value :=
  match v with
  | VObj ps => own_property k ps
  | _ => None
  end.

(** ToBoolean. *)
Definition truthy (v : value) : bool :=
  match v with
  | VNull => false
  | VBool b => b
  | VNum (Int 0) | VNum NegZero => false
  | VNum _ => true
  | VStr s => negb (is_empty s)
  | VArr _ | VObj _ => true
  end.

Definition truthy_opt (o : option value) : bool :=
  match o with Some v => truthy v | None => false end.

(** ** Number to text (Number::toString, radix 10) *)

Fixpoint uint_chars (d : Decimal.uint) : list ascii :=
  match d with
  | Decimal.Nil => []
  | Decimal.D0 d' => "0"%char :: uint_chars d'
  | Decimal.D1 d' => "1"%char :: uint_chars d'
  | Decimal.D2 d' => "2"%char :: uint_chars d'
  | Decimal.D3 d' => "3"%char :: uint_chars d'
  | Decimal.D4 d' => "4"%char :: uint_chars d'
  | Decimal.D5 d' => "5"%char :: uint_chars d'
  | Decimal.D6 d' => "6"%char :: uint_chars d'
  | Decimal.D7 d' => "7"%char :: uint_chars d'
  | Decimal.D8 d' => "8"%char :: uint_chars d'
  | Decimal.D9 d' => "9"%char :: uint_chars d'
  end.

Definition nat_chars (n : N) : list ascii := uint_chars (N.to_uint n).

Fixpoint drop_zeros (ds : list ascii) : list ascii :=
  match ds with
  | c :: r => if Ascii.eqb c "0" then drop_zeros r else ds
  | [] => []
  end.

Definition drop_trailing_zeros (ds : list ascii) : list ascii :=
  rev (drop_zeros (rev ds)).

Definition exp_chars (e : Z) : list ascii :=
  "e"%char :: (if 0 <=? e then "+"%char else "-"%char) :: nat_chars (Z.abs_N e).

(** Exponential notation: one digit, the others after a point if there
    are any, and the exponent. *)
Definition exponent_form (ds : list ascii) (e : Z) : list ascii :=
  match ds with
  | [] => []
  | [d] => d :: exp_chars e
  | d :: ds' => d :: "."%char :: ds' ++ exp_chars e
  end.

(** [ds] are the k significant digits of the number and the number is
    0.ds * 10^n; the five cases are those of the language definition. *)
Definition toString_digits (ds : list ascii) (n : Z) : list ascii :=
  let k := Z.of_nat (length ds) in
  if (k <=? n) && (n <=? 21) then ds ++ repeat "0"%char (Z.to_nat (n - k))
  else if (0 <? n) && (n <=? 21) then
    firstn (Z.to_nat n) ds ++ "."%char :: skipn (Z.to_nat n) ds
  else if (-6 <? n) && (n <=? 0) then
    "0"%char :: "."%char :: repeat "0"%char (Z.to_nat (- n)) ++ ds
  else exponent_form ds (n - 1).

Definition sign_chars (n : Z) : list ascii :=
  if n <? 0 then ["-"%char] else [].

Definition number_chars (x : number) : list ascii :=
  match x with
  | Int 0 => ["0"%char]
  | Int n =>
      let ds := nat_chars (Z.abs_N n) in
      sign_chars n ++ toString_digits (drop_trailing_zeros ds) (Z.of_nat (length ds))
  | Dec m k =>
      let ds := nat_chars (Z.abs_N m) in
      sign_chars m ++ toString_digits ds (Z.of_nat (length ds) - Z.pos k)
  | NegZero => ["0"%char]
  | Infinity false => chars "Infinity"
  | Infinity true => chars "-Infinity"
  end.

(** ** JSON.stringify *)

(** QuoteJSONString, one character at a time. *)
Definition quote_char (c : ascii) : list ascii :=
  if Ascii.eqb c "034" then ["\"%char; "034"%char]
  else if Ascii.eqb c "\" then ["\"%char; "\"%char]
  else if Ascii.eqb c "008" then ["\"%char; "b"%char]
  else if Ascii.eqb c "009" then ["\"%char; "t"%char]
  else if Ascii.eqb c "010" then ["\"%char; "n"%char]
  else if Ascii.eqb c "012" then ["\"%char; "f"%char]
  else if Ascii.eqb c "013" then ["\"%char; "r"%char]
  else if (ord c <? 32)%N then
    ["\"%char; "u"%char; "0"%char; "0"%char; hex_lower (ord c / 16); hex_lower (ord c mod 16)]
  else [c].

Fixpoint quote_chars (s : string) : list ascii :=
  match s with
  | EmptyString => []
  | String c r => quote_char c ++ quote_chars r
  end.

Definition quote (s : string) : list ascii :=
  "034"%char :: quote_chars s ++ ["034"%char].

Definition print_rest {A} (close : ascii) (pr : A -> list ascii) : list A -> list ascii :=
  fix rest (xs : list A) : list ascii :=
    match xs with
    | [] => [close]
    | x :: xs' => ","%char :: pr x ++ rest xs'
    end.

(** A number that is not finite is written [null]. *)
Definition json_number (n : number) : list ascii :=
  match n with
  | Infinity _ => chars "null"
  | _ => number_chars n
  end.

Fixpoint print_value (v : value) : list ascii :=
  match v with
  | VNull => chars "null"
  | VBool true => chars "true"
  | VBool false => chars "false"
  | VNum n => json_number n
  | VStr s => quote s
  | VArr [] => chars "[]"
  | VArr (x :: xs) => "["%char :: print_value x ++ print_rest "]" print_value xs
  | VObj [] => chars "{}"
  | VObj (p :: ps) =>
      "{"%char :: quote (fst p) ++ ":"%char :: print_value (snd p)
        ++ print_rest "}" (fun q => quote (fst q) ++ ":"%char :: print_value (snd q)) ps
  end.

Definition JSON_stringify (v : value) : string := text (print_value v).

(** One member of an object, as [print_value] writes it. *)
Definition print_member (q : string * value) : list ascii :=
  quote (fst q) ++ ":"%char :: print_value (snd q).


(** ** JSON.parse *)

Definition digit_of (c : ascii) : option (Decimal.uint -> Decimal.uint) :=
  if Ascii.eqb c "0" then Some Decimal.D0
  else if Ascii.eqb c "1" then Some Decimal.D1
  else if Ascii.eqb c "2" then Some Decimal.D2
  else if Ascii.eqb c "3" then Some Decimal.D3
  else if Ascii.eqb c "4" then Some Decimal.D4
  else if Ascii.eqb c "5" then Some Decimal.D5
  else if Ascii.eqb c "6" then Some Decimal.D6
  else if Ascii.eqb c "7" then Some Decimal.D7
  else if Ascii.eqb c "8" then Some Decimal.D8
  else if Ascii.eqb c "9" then Some Decimal.D9
  else None.

(** The longest run of digits at the head of the input. *)
Fixpoint read_digits (s : list ascii) : Decimal.uint * list ascii :=
  match s with
  | c :: r =>
      match digit_of c with
      | Some D => let (d, r') := read_digits r in (D d, r')
      | None => (Decimal.Nil, s)
      end
  | [] => (Decimal.Nil, [])
  end.

Definition read_sign (s : list ascii) : bool * list ascii :=
  match s with
  | c :: r => if Ascii.eqb c "-" then (true, r) else (false, s)
  | [] => (false, [])
  end.

(** [. digits], if present; [None] is a point without digits. *)
Definition read_fraction (s : list ascii) : option (Decimal.uint * list ascii) :=
  match s with
  | c :: r =>
      if Ascii.eqb c "." then
        match read_digits r with
        | (Decimal.Nil, _) => None
        | (f, r') => Some (f, r')
        end
      else Some (Decimal.Nil, s)
  | [] => Some (Decimal.Nil, [])
  end.

(** [e|E [+|-] digits], if present; [None] is an exponent without digits. *)
Definition read_exponent (s : list ascii) : option (Z * list ascii) :=
  match s with
  | c :: r =>
      if Ascii.eqb c "e" || Ascii.eqb c "E" then
        let (neg, r1) :=
          match r with
          | x :: r' =>
              if Ascii.eqb x "-" then (true, r')
              else if Ascii.eqb x "+" then (false, r')
              else (false, r)
          | [] => (false, [])
          end in
        match read_digits r1 with
        | (Decimal.Nil, _) => None
        | (e, r2) =>
            Some ((if neg then - Z.of_N (N.of_uint e) else Z.of_N (N.of_uint e)), r2)
        end
      else Some (0, s)
  | [] => Some (0, [])
  end.

(** z / 10^k in lowest terms. *)
Fixpoint strip_decimal (k : nat) (z : Z) : number :=
  match k with
  | O => Int z
  | S k' =>
      if z mod 10 =? 0 then strip_decimal k' (z / 10)
      else Dec z (Pos.of_succ_nat k')
  end.

Definition make_number (neg : bool) (m : N) (e : Z) : number :=
  let z := if neg then - Z.of_N m else Z.of_N m in
  if 0 <=? e then Int (z * 10 ^ e) else strip_decimal (Z.to_nat (- e)) z.

(** A JSON number: an optional minus sign, an integer part without a
    superfluous leading zero, an optional fraction, an optional exponent.
    [read_number] gives the decimal the literal denotes. *)
Definition read_number (s : list ascii) : option (number * list ascii) :=
  let (neg, s1) := read_sign s in
  let (i, s2) := read_digits s1 in
  if Decimal.uint_beq (Decimal.unorm i) i then
    match read_fraction s2 with
    | None => None
    | Some (f, s3) =>
        match read_exponent s3 with
        | None => None
        | Some (e, s4) =>
            Some (make_number neg (N.of_uint (Decimal.app i f))
                    (e - Z.of_nat (Decimal.nb_digits f)), s4)
        end
    end
  else None.

(** *** The Number value of a decimal: IEEE 754 binary64, to nearest,
    ties to even *)

(** The integral part of the binary logarithm of [num/den], both
    positive. *)
Definition binade (num den : Z) : Z :=
  let e := Z.log2 num - Z.log2 den in
  if (if 0 <=? e then den * 2 ^ e <=? num else den <=? num * 2 ^ (- e)) then e else e - 1.

Definition round_half_even (n d : Z) : Z :=
  let q := n / d in
  match 2 * (n mod d) ?= d with
  | Lt => q
  | Gt => q + 1
  | Eq => if Z.even q then q else q + 1
  end.

(** [(num/den) / base^e] as a fraction. *)
Definition scale (num den base e : Z) : Z * Z :=
  if 0 <=? e then (num, den * base ^ e) else (num * base ^ (- e), den).

(** The double nearest to [num/den], both positive, as [(M, q)] for
    [M * 2^q] with [M < 2^53] and [-1074 <= q <= 971]; [M] is below [2^52]
    for a subnormal number only, and is 0 when the fraction underflows.
    [None] is the overflow. *)
Definition to_double (num den : Z) : option (Z * Z) :=
  let q := Z.max (binade num den - 52) (-1074) in
  let (n, d) := scale num den 2 q in
  let M := round_half_even n d in
  if M =? 2 ^ 53 then (if 971 <? q + 1 then None else Some (2 ^ 52, q + 1))
  else if 971 <? q then None else Some (M, q).

(** The least [n] with [num/den < 10^n]. *)
Fixpoint first_power (fuel : nat) (n num den : Z) : Z :=
  match fuel with
  | O => n
  | S f =>
      let (a, b) := scale num den 10 n in
      if a <? b then n else first_power f (n + 1) num den
  end.

Definition magnitude (num den : Z) : Z :=
  first_power 6 (binade num den * 1233 / 4096 - 2) num den.

(** [s * 10^ex] has the double [M * 2^q] as its Number value. *)
Definition rounds_to (M q s ex : Z) : bool :=
  (0 <? s) &&
  let (a, b) := scale s 1 10 (- ex) in
  match to_double a b with
  | Some (M', q') => (M' =? M) && (q' =? q)
  | None => false
  end.

(** The digits of Number::toString: the decimal [s * 10^ex] with the
    fewest digits whose Number value is the double; of two such decimals
    the nearer one, and the even one when they are equally near.
    Seventeen digits always suffice. *)
Fixpoint shortest_from (fuel : nat) (k n num den M q : Z) : Z * Z :=
  match fuel with
  | O => if 0 <=? q then (M * 2 ^ q, 0) else (M * 5 ^ (- q), q)
  | S f =>
      let ex := n - k in
      let (a, b) := scale num den 10 ex in
      let lo := a / b in
      let hi := lo + 1 in
      match rounds_to M q lo ex, rounds_to M q hi ex with
      | true, true =>
          match 2 * (a mod b) ?= b with
          | Lt => (lo, ex)
          | Gt => (hi, ex)
          | Eq => if Z.even lo then (lo, ex) else (hi, ex)
          end
      | true, false => (lo, ex)
      | false, true => (hi, ex)
      | false, false => shortest_from f (k + 1) n num den M q
      end
  end.

Definition shortest (M q : Z) : Z * Z :=
  let (num, den) := scale M 1 2 (- q) in
  shortest_from 17 1 (magnitude num den) num den M q.

(** The number JavaScript holds for the positive fraction [num/den] with
    the given sign. *)
Definition nearest (neg : bool) (num den : Z) : number :=
  match to_double num den with
  | None => Infinity neg
  | Some (M, q) =>
      if M =? 0 then (if neg then NegZero else Int 0)
      else let (s, ex) := shortest M q in make_number neg (Z.to_N s) ex
  end.

(** The Number value of the decimal a literal denotes; [minus] is the
    sign of the literal, which a zero keeps. *)
Definition Number_value (minus : bool) (x : number) : number :=
  match x with
  | Int 0 => if minus then NegZero else Int 0
  | Int z => nearest (z <? 0) (Z.abs z) 1
  | Dec m k => nearest (m <? 0) (Z.abs m) (10 ^ Z.pos k)
  | NegZero | Infinity _ => x
  end.

Definition parse_number (s : list ascii) : option (number * list ascii) :=
  match read_number s with
  | Some (x, r) => Some (Number_value (fst (read_sign s)) x, r)
  | None => None
  end.

Definition hex4 (a b c d : ascii) : option N :=
  match hex_value a, hex_value b, hex_value c, hex_value d with
  | Some x, Some y, Some z, Some w => Some (4096 * x + 256 * y + 16 * z + w)%N
  | _, _, _, _ => None
  end.

Definition is_high (u : N) : bool := (55296 <=? u)%N && (u <=? 56319)%N.
Definition is_low (u : N) : bool := (56320 <=? u)%N && (u <=? 57343)%N.
Definition pair_code (hi lo : N) : N :=
  (65536 + (hi - 55296) * 1024 + (lo - 56320))%N.

Definition simple_escape (c : ascii) : option ascii :=
  if Ascii.eqb c "034" then Some "034"%char
  else if Ascii.eqb c "\" then Some "\"%char
  else if Ascii.eqb c "/" then Some "/"%char
  else if Ascii.eqb c "b" then Some "008"%char
  else if Ascii.eqb c "f" then Some "012"%char
  else if Ascii.eqb c "n" then Some "010"%char
  else if Ascii.eqb c "r" then Some "013"%char
  else if Ascii.eqb c "t" then Some "009"%char
  else None.

Definition prepend (bs : list ascii) (r : option (string * list ascii))
  : option (string * list ascii) :=
  match r with
  | Some (s, rest) => Some (fold_right String s bs, rest)
  | None => None
  end.

(** The characters of a string literal after its opening quote, up to and
    including the closing quote.  An escaped surrogate pair is one code
    point. *)
Fixpoint parse_chars (s : list ascii) : option (string * list ascii) :=
  match s with
  | [] => None
  | c :: r =>
      if Ascii.eqb c "034" then Some (EmptyString, r)
      else if Ascii.eqb c "\" then
        match r with
        | [] => None
        | e :: r1 =>
            if Ascii.eqb e "u" then
              match r1 with
              | h1 :: h2 :: h3 :: h4 :: r2 =>
                  match hex4 h1 h2 h3 h4 with
                  | None => None
                  | Some cu =>
                      match r2 with
                      | b :: u :: g1 :: g2 :: g3 :: g4 :: r3 =>
                          if is_high cu && Ascii.eqb b "\" && Ascii.eqb u "u" then
                            match hex4 g1 g2 g3 g4 with
                            | Some lo =>
                                if is_low lo
                                then prepend (utf8 (pair_code cu lo)) (parse_chars r3)
                                else prepend (utf8 cu) (parse_chars r2)
                            | None => prepend (utf8 cu) (parse_chars r2)
                            end
                          else prepend (utf8 cu) (parse_chars r2)
                      | _ => prepend (utf8 cu) (parse_chars r2)
                      end
                  end
              | _ => None
              end
            else
              match simple_escape e with
              | Some x => prepend [x] (parse_chars r1)
              | None => None
              end
        end
      else if (ord c <? 32)%N then None
      else prepend [c] (parse_chars r)
  end.

Fixpoint expect {A} (kw : list ascii) (s : list ascii) (a : A) : option (A * list ascii) :=
  match kw with
  | [] => Some (a, s)
  | k :: kw' =>
      match s with
      | c :: r => if Ascii.eqb c k then expect kw' r a else None
      | [] => None
      end
  end.

(** Property creation.  A key that is an array index (the decimal numeral
    of an integer below 2^32 - 1) is enumerated before the other keys, in
    numeric order; the other keys keep the order of their creation.
    Setting an existing key keeps its place. *)
Definition array_index (k : string) : option N :=
  match read_digits (chars k) with
  | (d, []) =>
      if Decimal.uint_beq (Decimal.unorm d) d && (N.of_uint d <=? 4294967294)%N
      then Some (N.of_uint d) else None
  | _ => None
  end.

Definition key_before (k k' : string) : bool :=
  match array_index k, array_index k' with
  | Some i, Some j => (i <? j)%N
  | Some _, None => true
  | None, _ => false
  end.

Fixpoint has_key (k : string) (ps : list (string * value)) : bool :=
  match ps with
  | [] => false
  | (k', _) :: ps' => String.eqb k k' || has_key k ps'
  end.

Fixpoint obj_replace (k : string) (v : value) (ps : list (string * value)) :=
  match ps with
  | [] => []
  | (k', v') :: ps' =>
      if String.eqb k k' then (k', v) :: ps' else (k', v') :: obj_replace k v ps'
  end.

Fixpoint obj_insert (k : string) (v : value) (ps : list (string * value)) :=
  match ps with
  | [] => [(k, v)]
  | (k', v') :: ps' =>
      if key_before k k' then (k, v) :: ps else (k', v') :: obj_insert k v ps'
  end.

Definition obj_set (k : string) (v : value) (ps : list (string * value)) :=
  if has_key k ps then obj_replace k v ps else obj_insert k v ps.

Definition build_object (ms : list (string * value)) : list (string * value) :=
  fold_left (fun o m => obj_set (fst m) (snd m) o) ms [].

Fixpoint parse_value (fuel : nat) (s : list ascii) {struct fuel}
  : option (value * list ascii) :=
  match fuel with
  | O => None
  | S fuel' =>
      match skip_ws s with
      | [] => None
      | c :: r =>
          if Ascii.eqb c "n" then expect (chars "ull") r VNull
          else if Ascii.eqb c "t" then expect (chars "rue") r (VBool true)
          else if Ascii.eqb c "f" then expect (chars "alse") r (VBool false)
          else if Ascii.eqb c "034" then
            match parse_chars r with
            | Some (str, r') => Some (VStr str, r')
            | None => None
            end
          else if Ascii.eqb c "[" then
            match skip_ws r with
            | c' :: r' =>
                if Ascii.eqb c' "]" then Some (VArr [], r')
                else
                  match parse_elements fuel' r with
                  | Some (vs, r'') => Some (VArr vs, r'')
                  | None => None
                  end
            | [] => None
            end
          else if Ascii.eqb c "{" then
            match skip_ws r with
            | c' :: r' =>
                if Ascii.eqb c' "}" then Some (VObj [], r')
                else
                  match parse_members fuel' r with
                  | Some (ms, r'') => Some (VObj (build_object ms), r'')
                  | None => None
                  end
            | [] => None
            end
          else
            match parse_number (c :: r) with
            | Some (n, r') => Some (VNum n, r')
            | None => None
            end
      end
  end
with parse_elements (fuel : nat) (s : list ascii) {struct fuel}
  : option (list value * list ascii) :=
  match fuel with
  | O => None
  | S fuel' =>
      match parse_value fuel' s with
      | None => None
      | Some (v, r) =>
          match skip_ws r with
          | c :: r' =>
              if Ascii.eqb c "," then
                match parse_elements fuel' r' with
                | Some (vs, r'') => Some (v :: vs, r'')
                | None => None
                end
              else if Ascii.eqb c "]" then Some ([v], r')
              else None
          | [] => None
          end
      end
  end
with parse_members (fuel : nat) (s : list ascii) {struct fuel}
  : option (list (string * value) * list ascii) :=
  match fuel with
  | O => None
  | S fuel' =>
      match skip_ws s with
      | q :: r =>
          if Ascii.eqb q "034" then
            match parse_chars r with
            | None => None
            | Some (k, r1) =>
                match skip_ws r1 with
                | c :: r2 =>
                    if Ascii.eqb c ":" then
                      match parse_value fuel' r2 with
                      | None => None
                      | Some (v, r3) =>
                          match skip_ws r3 with
                          | c' :: r4 =>
                              if Ascii.eqb c' "," then
                                match parse_members fuel' r4 with
                                | Some (ms, r5) => Some ((k, v) :: ms, r5)
                                | None => None
                                end
                              else if Ascii.eqb c' "}" then Some ([(k, v)], r4)
                              else None
                          | [] => None
                          end
                      end
                    else None
                | [] => None
                end
            end
          else None
      | [] => None
      end
  end.

(** [JSON.parse]; [None] is the [SyntaxError] it throws.  The fuel is an
    upper bound of the recursion depth on an input of this length
    ([parse_value_fuel] below). *)
Definition JSON_parse (s : string) : option value :=
  let cs := chars s in
  match parse_value (S (2 * length cs)) cs with
  | Some (v, r) =>
      match skip_ws r with
      | [] => Some v
      | _ :: _ => None
      end
  | None => None
  end.


(** ** Conversion to text: template literals and [encodeURIComponent] *)

(** ToString of a value that came out of JSON; [None] is the [TypeError]
    of an object that owns a [toString] property, which JSON cannot make
    callable and which hides the inherited one. *)
Fixpoint ToString (v : value) : option string :=
  match v with
  | VNull => Some "null"%string
  | VBool true => Some "true"%string
  | VBool false => Some "false"%string
  | VNum n => Some (text (number_chars n))
  | VStr s => Some s
  | VArr xs =>
      (* Array.prototype.join: null elements are empty *)
      let elem (x : value) : option string :=
        match x with VNull => Some EmptyString | _ => ToString x end in
      (fix join (l : list value) : option string :=
         match l with
         | [] => Some EmptyString
         | [x] => elem x
         | x :: l' =>
             match elem x, join l' with
             | Some a, Some b => Some (a +:+ "," +:+ b)
             | _, _ => None
             end
         end) xs
  | VObj ps => if has_key "toString" ps then None else Some "[object Object]"%string
  end.

Definition unreserved (c : ascii) : bool :=
  let n := ord c in
  ((65 <=? n)%N && (n <=? 90)%N) || ((97 <=? n)%N && (n <=? 122)%N)
  || ((48 <=? n)%N && (n <=? 57)%N)
  || Ascii.eqb c "-" || Ascii.eqb c "_" || Ascii.eqb c "." || Ascii.eqb c "!"
  || Ascii.eqb c "~" || Ascii.eqb c "*" || Ascii.eqb c "'" || Ascii.eqb c "("
  || Ascii.eqb c ")".

Definition percent (c : ascii) : list ascii :=
  ["%"%char; hex_upper (ord c / 16); hex_upper (ord c mod 16)].

(** Every octet of the UTF-8 text that is not an unreserved character is
    written as [%XX]. *)
Fixpoint encode_chars (s : list ascii) : list ascii :=
  match s with
  | [] => []
  | c :: r => (if unreserved c then [c] else percent c) ++ encode_chars r
  end.

Definition encodeURIComponent (s : string) : string :=
  text (encode_chars (chars s)).

(** The reading a server makes of an encoded component. *)
Fixpoint decode_chars (s : list ascii) : option (list ascii) :=
  match s with
  | [] => Some []
  | c :: r =>
      if Ascii.eqb c "%" then
        match r with
        | h :: l :: r' =>
            match hex_value h, hex_value l, decode_chars r' with
            | Some x, Some y, Some t => Some (chr (16 * x + y) :: t)
            | _, _, _ => None
            end
        | _ => None
        end
      else
        match decode_chars r with
        | Some t => Some (c :: t)
        | None => None
        end
  end.

Definition percent_decode (s : string) : option string :=
  match decode_chars (chars s) with
  | Some l => Some (text l)
  | None => None
  end.

(** [String.prototype.trim] on UTF-8 text: the white space and line
    terminators of the language, one, two or three octets long. *)
Definition space1 (c : ascii) : bool :=
  let n := ord c in ((9 <=? n)%N && (n <=? 13)%N) || (n =? 32)%N.

Definition space2 (a b : ascii) : bool :=
  (ord a =? 194)%N && (ord b =? 160)%N.                       (* U+00A0 *)

Definition space3 (a b c : ascii) : bool :=
  let x := ord a in let y := ord b in let z := ord c in
  ((x =? 225) && (y =? 154) && (z =? 128))%N                   (* U+1680 *)
  || ((x =? 226) && (y =? 128) && ((128 <=? z) && (z <=? 138)))%N  (* U+2000-200A *)
  || ((x =? 226) && (y =? 128) && ((z =? 168) || (z =? 169) || (z =? 175)))%N
  || ((x =? 226) && (y =? 129) && (z =? 159))%N                (* U+205F *)
  || ((x =? 227) && (y =? 128) && (z =? 128))%N                (* U+3000 *)
  || ((x =? 239) && (y =? 187) && (z =? 191))%N.               (* U+FEFF *)

Fixpoint trim_start (s : list ascii) : list ascii :=
  match s with
  | [] => []
  | a :: r =>
      if space1 a then trim_start r
      else
        match r with
        | [] => s
        | b :: r2 =>
            if space2 a b then trim_start r2
            else
              match r2 with
              | [] => s
              | c :: r3 => if space3 a b c then trim_start r3 else s
              end
        end
  end.

Fixpoint trim_end (s : list ascii) : list ascii :=
  match s with
  | [] => []
  | a :: r =>
      match trim_start s with
      | [] => []
      | _ :: _ => a :: trim_end r
      end
  end.

Definition trim (s : string) : string := text (trim_end (trim_start (chars s))).

(** ** The platform: AsyncStorage, axios, exceptions *)

Inductive method := GET | POST.

(** A request as the axios instance hands it to its adapter, after the
    interceptor; of the headers, those the service sets. *)
Record request := {
  req_method : method;
  req_baseURL : string;
  req_url : string;
  req_headers : gmap string string;
  req_data : option value
}.

Record response := { status : Z; data : value }.

(** Error objects raised by the platform.  An [AxiosError] carries the
    response when one was received. *)
Inductive error :=
| SyntaxError
| TypeError
| AxiosError (r : option response).

(** What a method of the service can throw: an error object it lets
    through, or the plain value it throws itself. *)
Inductive thrown :=
| Err (e : error)
| Val (v : value).

(** The device storage and the requests that were handed to the adapter,
    in order. *)
Record world := {
  storage : gmap string string;
  sent : list request
}.

Inductive result (E A : Type) :=
| Ok (a : A)
| Throw (e : E).
Arguments Ok {E A} a.
Arguments Throw {E A} e.

Definition M (E A : Type) : Type := world -> result E A * world.

Definition ret {E A} (a : A) : M E A := fun w => (Ok a, w).
Definition throw {E A} (e : E) : M E A := fun w => (Throw e, w).

Definition bind {E A B} (c : M E A) (k : A -> M E B) : M E B :=
  fun w =>
    match c w with
    | (Ok a, w') => k a w'
    | (Throw e, w') => (Throw e, w')
    end.

Definition try_catch {E E' A} (c : M E A) (h : E -> M E' A) : M E' A :=
  fun w =>
    match c w with
    | (Ok a, w') => (Ok a, w')
    | (Throw e, w') => h e w'
    end.

Notation "'await' x := c 'in' k" := (bind c (fun x => k))
  (at level 10, x binder, c at level 100, k at level 200).

Definition getItem {E} (k : string) : M E (option string) :=
  fun w => (Ok (storage w !! k), w).

Definition setItem {E} (k v : string) : M E unit :=
  fun w => (Ok tt, {| storage := <[k := v]> (storage w); sent := sent w |}).

Definition removeItem {E} (k : string) : M E unit :=
  fun w => (Ok tt, {| storage := delete k (storage w); sent := sent w |}).

Definition or_else (o : option value) (d : value) : value :=   (* o || d *)
  match o with
  | Some v => if truthy v then v else d
  | None => d
  end.

(** [error.response?.data] *)
Definition error_response_data (e : error) : option value :=
  match e with
  | AxiosError (Some r) => Some (data r)
  | _ => None
  end.

Definition message (m : string) : value := VObj [("message"%string, VStr m)].

Definition API_BASE_URL : string := "http://192.168.0.100/php_api".

Definition validateStatus (s : Z) : bool := (200 <=? s) && (s <? 300).

Definition set_header (name v : string) (config : request) : request :=
  {| req_method := req_method config;
     req_baseURL := req_baseURL config;
     req_url := req_url config;
     req_headers := <[name := v]> (req_headers config);
     req_data := req_data config |}.

(** What the adapter puts on the wire: a request without data goes out
    without its [Content-Type]. *)
Definition transmitted (config : request) : request :=
  match req_data config with
  | Some _ => config
  | None =>
      {| req_method := req_method config;
         req_baseURL := req_baseURL config;
         req_url := req_url config;
         req_headers := delete "Content-Type"%string (req_headers config);
         req_data := None |}
  end.

Section Service.

(** The network and the server behind it: what comes back for a request,
    given the requests made before; [None] is no response at all. *)
Variable server : list request -> request -> option response.

(** *** [ApiService.js] *)

(** The request interceptor installed by the constructor. *)
Definition interceptor (config : request) : M error request :=
  await userString := getItem "user" in
  match userString with
  | None => ret config
  | Some s =>
      if is_empty s then ret config
      else
        match JSON_parse s with
        | None => throw SyntaxError
        | Some user =>
            if truthy user && truthy_opt (get_prop user "token") then
              match get_prop user "token" with
              | Some token =>
                  match ToString token with
                  | Some t => ret (set_header "Authorization" ("Bearer " +:+ t) config)
                  | None => throw TypeError
                  end
              | None => ret config
              end
            else ret config
        end
  end.

(** A request of the axios instance: the interceptor, then the dispatch;
    a status outside 2xx rejects. *)
Definition dispatch (config : request) : M error response :=
  fun w =>
    let w' := {| storage := storage w; sent := sent w ++ [config] |} in
    match server (sent w) config with
    | None => (Throw (AxiosError None), w')
    | Some r =>
        if validateStatus (status r) then (Ok r, w')
        else (Throw (AxiosError (Some r)), w')
    end.

Definition api_request (config : request) : M error response :=
  await config' := interceptor config in
  dispatch config'.

Definition defaults (m : method) (url : string) (body : option value) : request :=
  {| req_method := m;
     req_baseURL := API_BASE_URL;
     req_url := url;
     req_headers := {[ "Content-Type"%string := "application/json"%string ]};
     req_data := body |}.

Definition api_post (url : string) (body : value) : M error response :=
  api_request (defaults POST url (Some body)).

Definition api_get (url : string) : M error response :=
  api_request (defaults GET url None).

Definition login (credentials : value) : M thrown value :=
  try_catch
    (await response := api_post "/auth/login" credentials in
     await _ :=
       (if truthy (data response) && truthy_opt (get_prop (data response) "user") then
          match get_prop (data response) "user" with
          | Some user => setItem "user" (JSON_stringify user)
          | None => ret tt
          end
        else ret tt) in
     ret (data response))
    (fun error =>
       throw (Val (or_else (error_response_data error) (message "Login failed")))).

Definition register (userData : value) : M thrown value :=
  try_catch
    (await response := api_post "/auth/register" userData in
     ret (data response))
    (fun error =>
       throw (Val (or_else (error_response_data error) (message "Registration failed")))).

Definition logout : M thrown unit :=
  removeItem "user".

Definition getStoredUser : M thrown value :=
  await userString := getItem "user" in
  match userString with
  | None => ret VNull
  | Some s =>
      if is_empty s then ret VNull
      else
        match JSON_parse s with
        | Some v => ret v
        | None => throw (Err SyntaxError)
        end
  end.

Definition getWeather (query : string) : M thrown value :=
  try_catch
    (await response := api_get ("/weather/get?q=" +:+ encodeURIComponent query) in
     ret (data response))
    (fun error =>
       throw (Val (or_else (error_response_data error) (message "Failed to fetch weather")))).

(** The members of the exported instance: the methods of the class body. *)
Inductive member := Login | Register | Logout | GetStoredUser | GetWeather.

Definition ApiService : list (string * member) :=
  [("login"%string, Login); ("register"%string, Register); ("logout"%string, Logout);
   ("getStoredUser"%string, GetStoredUser); ("getWeather"%string, GetWeather)].

Fixpoint member_named (name : string) (ms : list (string * member)) : option member :=
  match ms with
  | [] => None
  | (n, m) :: ms' => if String.eqb name n then Some m else member_named name ms'
  end.

(** A call [ApiService.m(arg)]; [logout] returns nothing, here null. *)
Definition invoke (m : member) (arg : value) : M thrown value :=
  match m with
  | Login => login arg
  | Register => register arg
  | Logout => await _ := logout in ret VNull
  | GetStoredUser => getStoredUser
  | GetWeather =>
      match ToString arg with
      | Some q => getWeather q
      | None => throw (Val (message "Failed to fetch weather"))
      end
  end.

(** A call [ApiService[name](arg)], for a name that [Object.prototype]
    does not define either: calling a member that does not exist is a
    [TypeError]. *)
Definition call (name : string) (arg : value) : M thrown value :=
  match member_named name ApiService with
  | Some m => invoke m arg
  | None => throw (Err TypeError)
  end.

(** *** [ReportHazardScreen.handleSubmit] *)

Record form := {
  hazardType : string;
  description : string;
  locationName : string;
  latitude : value;       (* null until a position is captured *)
  longitude : value;
  currentUser : value     (* what getStoredUser gave when the screen opened *)
}.

(** The text the engine gives an error object as its [message]. *)
Variable engine_message : error -> string.

Definition thrown_message (t : thrown) : option value :=   (* error.message *)
  match t with
  | Err e => Some (VStr (engine_message e))
  | Val v => get_prop v "message"
  end.

(** A property whose value may be undefined: it is left out, as JSON
    leaves it out. *)
Definition property (k : string) (o : option value) : list (string * value) :=
  match o with Some v => [(k, v)] | None => [] end.

Definition hazardData (f : form) : value :=
  VObj (property "user_id" (get_prop (currentUser f) "id")
        ++ [("hazard_type"%string, VStr (hazardType f));
            ("description"%string, VStr (trim (description f)));
            ("location_name"%string,
             VStr (if is_empty (trim (locationName f)) then "Unknown Location"%string
                   else trim (locationName f)));
            ("latitude"%string, latitude f);
            ("longitude"%string, longitude f)]).

Definition cleared (f : form) : form :=
  {| hazardType := EmptyString; description := EmptyString;
     locationName := EmptyString;
     latitude := VNull; longitude := VNull; currentUser := currentUser f |}.

(** The alerts shown, as (title, message), and the form afterwards. *)
Definition handleSubmit (f : form) : M thrown (list (string * value) * form) :=
  if is_empty (hazardType f) then
    ret ([("Error"%string, VStr "Please select a hazard type.")], f)
  else if is_empty (trim (description f)) then
    ret ([("Error"%string, VStr "Please provide a description.")], f)
  else if negb (truthy (latitude f)) || negb (truthy (longitude f)) then
    ret ([("Error"%string, VStr "Please capture your location first.")], f)
  else if negb (truthy (currentUser f)) then
    ret ([("Error"%string, VStr "You must be logged in to report a hazard.")], f)
  else
    try_catch
      (await response := call "reportHazard" (hazardData f) in
       ret ([("Success"%string, VStr "Hazard reported successfully!")], cleared f))
      (fun error =>
         ret ([("Error"%string,
                or_else (thrown_message error) (VStr "Failed to report hazard"))], f)).

End Service.

(** ** Predicates of the specification *)

(** A session is persisted when the fixed key holds a record. *)
Definition session_persisted (w : world) : Prop := is_Some (storage w !! "user"%string).

(** The bearer token of the persisted session, as a request carries it. *)
Definition session_token (st : gmap string string) : option string :=
  match st !! "user"%string with
  | None => None
  | Some s =>
      match JSON_parse s with
      | Some user =>
          match get_prop user "token" with
          | Some token => if truthy token then ToString token else None
          | None => None
          end
      | None => None
      end
  end.

(** The stored record can be read by the interceptor: nothing is stored,
    or the stored text is empty, or it is JSON text whose token, when it
    counts, has a text. *)
Definition session_readable (st : gmap string string) : bool :=
  match st !! "user"%string with
  | None => true
  | Some s =>
      is_empty s ||
      match JSON_parse s with
      | None => false
      | Some user =>
          match get_prop user "token" with
          | Some token => negb (truthy token) || bool_decide (is_Some (ToString token))
          | None => true
          end
      end
  end.

(** ** Values the storage round trip is proved for *)

Definition number_eqb (x y : number) : bool :=
  match x, y with
  | Int a, Int b => a =? b
  | Dec a j, Dec b k => (a =? b) && (j =? k)%positive
  | NegZero, NegZero => true
  | Infinity a, Infinity b => Bool.eqb a b
  | _, _ => false
  end.

(** A finite number other than -0, as JavaScript holds it: the decimal,
    in lowest terms, that Number::toString writes for a double. *)
Definition number_ok (x : number) : bool :=
  match x with
  | Int _ => number_eqb (Number_value false x) x
  | Dec m _ => negb (m mod 10 =? 0) && number_eqb (Number_value false x) x
  | NegZero | Infinity _ => false
  end.

(** A number as JavaScript holds it. *)
Definition is_number (x : number) : bool :=
  match x with
  | NegZero | Infinity _ => true
  | _ => number_ok x
  end.

(** The properties [ms], created in this order after those of [acc], are
    new and none of them is enumerated before an earlier one. *)
Fixpoint keys_ok (acc ms : list (string * value)) : bool :=
  match ms with
  | [] => true
  | m :: ms' =>
      negb (has_key (fst m) acc)
      && forallb (fun p => negb (key_before (fst m) (fst p))) acc
      && keys_ok (acc ++ [m]) ms'
  end.

(** A value as JavaScript holds it: the properties of an object are
    distinct and in enumeration order, and every number is a double. *)
Fixpoint well_formed (v : value) : bool :=
  match v with
  | VNull | VBool _ | VStr _ => true
  | VNum n => is_number n
  | VArr xs => forallb well_formed xs
  | VObj ps => keys_ok [] ps && forallb (fun p => well_formed (snd p)) ps
  end.

(** Such a value that JSON text keeps as it is: none of its numbers is
    -0 or not finite. *)
Fixpoint lossless (v : value) : bool :=
  match v with
  | VNull | VBool _ | VStr _ => true
  | VNum n => number_ok n
  | VArr xs => forallb lossless xs
  | VObj ps => keys_ok [] ps && forallb (fun p => lossless (snd p)) ps
  end.

(** What JSON text keeps of a value: a number that is not finite has
    become null, and -0 has become 0. *)
Fixpoint kept (v : value) : value :=
  match v with
  | VNum NegZero => VNum (Int 0)
  | VNum (Infinity _) => VNull
  | VArr xs => VArr (map kept xs)
  | VObj ps => VObj (map (fun p => (fst p, kept (snd p))) ps)
  | _ => v
  end.

(** The recursion depth of [parse_value] on the text of a value. *)
Fixpoint height (v : value) : nat :=
  match v with
  | VArr xs => S (fold_right (fun x h => S (Nat.max (height x) h)) O xs)
  | VObj ps => S (fold_right (fun p h => S (Nat.max (height (snd p)) h)) O ps)
  | _ => 1%nat
  end.

(** ** Auxiliary notions of the proofs *)

Definition not_digit_head (s : list ascii) : Prop :=
  match s with
  | [] => True
  | c :: _ => digit_of c = None
  end.

Definition number_stop (rest : list ascii) : Prop :=
  match rest with
  | [] => True
  | c :: _ =>
      digit_of c = None /\ Ascii.eqb c "." = false
      /\ (Ascii.eqb c "e" || Ascii.eqb c "E") = false
  end.

Definition digit_char (d : digits) : ascii :=
  match d with
  | d0 => "0" | d1 => "1" | d2 => "2" | d3 => "3" | d4 => "4"
  | d5 => "5" | d6 => "6" | d7 => "7" | d8 => "8" | d9 => "9"
  end%char.

(** The fraction and the exponent of a number text. *)
Definition frac_text (f : Decimal.uint) : list ascii :=
  match f with Decimal.Nil => [] | _ => "."%char :: uint_chars f end.

Definition exp_text (e : option Z) : list ascii :=
  match e with None => [] | Some z => exp_chars z end.

(** The first character of a value is neither white space nor a closing
    bracket. *)
Definition value_start (s : list ascii) : Prop :=
  match s with
  | [] => False
  | c :: _ => is_ws c = false /\ Ascii.eqb c "]" = false /\ Ascii.eqb c "}" = false
  end.

(** What the round trip says of one value. *)
Definition reads_back (v : value) : Prop :=
  lossless v = true ->
  forall fuel rest,
    (height v <= fuel)%nat -> number_stop rest ->
    parse_value fuel (print_value v ++ rest) = Some (v, rest).

(** Percent-encoding in the words of the specification: every octet of
    the UTF-8 text of the query is written as it is when it is one of the
    unreserved characters of a URI component, and as a percent sign with
    its two hexadecimal digits, in upper case, otherwise. *)
Definition uri_unreserved : string :=
  "ABCDEFGHIJKLMNOPQRSTUVWXYZabcdefghijklmnopqrstuvwxyz0123456789-_.!~*'()".

Definition uri_hex : string := "0123456789ABCDEF".

Definition hex_digit (n : N) : ascii := nth (N.to_nat n) (chars uri_hex) "0"%char.

Definition is_unreserved (c : ascii) : bool :=
  existsb (Ascii.eqb c) (chars uri_unreserved).

Definition percent_encoded (s : string) : string :=
  text (flat_map
          (fun c => if is_unreserved c then [c]
                    else ["%"%char; hex_digit (ord c / 16); hex_digit (ord c mod 16)])
          (chars s)).

(** The characters of an encoded component. *)
Definition url_safe (c : ascii) : bool := is_unreserved c || Ascii.eqb c "%".

(** The octets an unpaired surrogate would have as a code point, ED A0..BF
    and one more: a string that holds an unpaired surrogate has no UTF-8
    text, and [encodeURIComponent] throws a URIError on it. *)
Fixpoint unpaired_surrogate (l : list ascii) : bool :=
  match l with
  | [] => false
  | a :: r =>
      match r with
      | b :: _ => (ord a =? 237)%N && (160 <=? ord b)%N
      | [] => false
      end || unpaired_surrogate r
  end.

(** The sentence of the specification on [getWeather]: the query goes
    out, percent-encoded, as the [q] parameter of a GET request to
    [/weather/get]. *)
Definition sends_query
  (server : list request -> request -> option response) (q : string) (w : world) : Prop :=
  exists cfg,
    sent (snd (getWeather server q w)) = sent w ++ [cfg]
    /\ req_method cfg = GET
    /\ req_url cfg = "/weather/get?q=" +:+ percent_encoded q.

(** The three outcomes of a request of the axios instance. *)
Inductive pipeline (server : list request -> request -> option response)
  (cfg : request) (w : world) : result error response -> world -> Prop :=
| not_sent e :
    interceptor cfg w = (Throw e, w) ->
    pipeline server cfg w (Throw e) w
| no_response cfg' :
    interceptor cfg w = (Ok cfg', w) ->
    server (sent w) cfg' = None ->
    pipeline server cfg w (Throw (AxiosError None))
      {| storage := storage w; sent := sent w ++ [cfg'] |}
| answered cfg' r :
    interceptor cfg w = (Ok cfg', w) ->
    server (sent w) cfg' = Some r ->
    pipeline server cfg w
      (if validateStatus (status r) then Ok r else Throw (AxiosError (Some r)))
      {| storage := storage w; sent := sent w ++ [cfg'] |}.

Definition persist (user : value) (w : world) : world :=
  {| storage := <["user"%string := JSON_stringify user]> (storage w); sent := sent w |}.

Definition surfaced (e : error) (fallback : string) : thrown :=
  Val (or_else (error_response_data e) (message fallback)).

Inductive operation :=
| OpLogin (credentials : value)
| OpRegister (userData : value)
| OpGetWeather (query : string).

Definition run (server : list request -> request -> option response) (op : operation)
  : M thrown value :=
  match op with
  | OpLogin c => login server c
  | OpRegister u => register server u
  | OpGetWeather q => getWeather server q
  end.

Definition fallback (op : operation) : string :=
  match op with
  | OpLogin _ => "Login failed"
  | OpRegister _ => "Registration failed"
  | OpGetWeather _ => "Failed to fetch weather"
  end.

Definition first_request (op : operation) : request :=
  match op with
  | OpLogin c => defaults POST "/auth/login" (Some c)
  | OpRegister u => defaults POST "/auth/register" (Some u)
  | OpGetWeather q => defaults GET ("/weather/get?q=" +:+ encodeURIComponent q) None
  end.

(** The specification's invariant, in its words: the request that goes
    out carries the header if and only if a session is persisted. *)
Definition bearer_iff_persisted
  (server : list request -> request -> option response) (cfg : request) (w : world) : Prop :=
  exists cfg',
    sent (snd (api_request server cfg w)) = sent w ++ [cfg']
    /\ (is_Some (req_headers cfg' !! "Authorization"%string) <-> session_persisted w).

Definition nobody : list request -> request -> option response := fun _ _ => None.

Definition answers (st : Z) (body : value) : list request -> request -> option response :=
  fun _ _ => Some {| status := st; data := body |}.

Definition fresh : world := {| storage := empty; sent := [] |}.

Definition holding (record : string) : world :=
  {| storage := {[ "user"%string := record ]}; sent := [] |}.

Definition ann : value :=
  VObj [("id"%string, VNum (Int 7)); ("name"%string, VStr "Ann");
        ("email"%string, VStr "ann@example.org"); ("token"%string, VStr "s3cr3t")].

Definition ann_credentials : value :=
  VObj [("email"%string, VStr "ann@example.org"); ("password"%string, VStr "hunter2")].

(** A user as a server without tokens would return it. *)
Definition tokenless : value :=
  VObj [("id"%string, VNum (Int 7)); ("name"%string, VStr "Ann")].

(** A user as [JSON.parse] gives it when the server writes the id as
    [1e999]. *)
Definition overflowing : value :=
  VObj [("id"%string, VNum (Infinity false)); ("name"%string, VStr "Ann");
        ("token"%string, VStr "s3cr3t")].

(** What a careless [setItem('user', user)] leaves in the storage. *)
Definition garbled : string := "[object Object]".

Definition oil_slick : form :=
  {| hazardType := "Pollution";
     description := "Oil slick near the pier";
     locationName := "Pier 3";
     latitude := VNum (Dec 327157 4);
     longitude := VNum (Dec (-1171611) 4);
     currentUser := ann |}.

(** ** The screens around the service *)

(** The device, as the screens ask it: the platform, the answer to the
    request for the location permission (granted, anything else, or an
    exception), and the position the geolocation service delivers, if it
    delivers one. *)
Inductive permission := Granted | Refused | Failed.

Record device := {
  android : bool;
  permission_answer : permission;
  position : option (number * number)
}.

(** *** [ReportHazardScreen]: the effect that loads the user, and
    [getCurrentLocation] *)

(** [loadUser]: an exception of [getStoredUser] is not caught, and the
    user stays what it was. *)
Definition loadUser (f : form) : M thrown form :=
  await user := getStoredUser in
  ret {| hazardType := hazardType f; description := description f;
         locationName := locationName f; latitude := latitude f;
         longitude := longitude f; currentUser := user |}.

Definition getCurrentLocation (dev : device) (f : form) : list (string * value) * form :=
  match position dev with
  | Some (lat, lon) =>
      ([("Success"%string, VStr "Location captured successfully!")],
       {| hazardType := hazardType f; description := description f;
          locationName := locationName f; latitude := VNum lat;
          longitude := VNum lon; currentUser := currentUser f |})
  | None =>
      ([("Error"%string, VStr "Could not get your location. Please enter manually.")], f)
  end.

(** *** [WeatherScreen.js] *)

Module WeatherScreen.

Record state := {
  weatherData : value;      (* null, or what the service returned *)
  loading : bool;
  searchQuery : string;
  errorMessage : value      (* the state [error]: null, or the message shown *)
}.

(** The two ways [fetchWeather] leaves the screen: with the data and no
    error, or with the error message, which is also alerted, and no data. *)
Definition shown (data : value) (st : state) : list (string * value) * state :=
  ([], {| weatherData := data; loading := false;
          searchQuery := searchQuery st; errorMessage := VNull |}).

Definition failed (m : value) (st : state) : list (string * value) * state :=
  ([("Error"%string, m)],
   {| weatherData := VNull; loading := false;
      searchQuery := searchQuery st; errorMessage := m |}).

Section Screen.

Variable server : list request -> request -> option response.
Variable engine_message : error -> string.

(** [fetchWeather], as the state is when it has finished; the service
    throws truthy values only, whose [message] can be read. *)
Definition fetchWeather (query : string) (st : state)
  : M thrown (list (string * value) * state) :=
  try_catch
    (await data := getWeather server query in
     ret (shown data st))
    (fun err =>
       ret (failed
              (or_else (thrown_message engine_message err)
                 (VStr "Failed to fetch weather data. Is the PHP server running?"))
              st)).

Definition handleSearch (st : state) : M thrown (list (string * value) * state) :=
  if is_empty (trim (searchQuery st)) then ret ([], st)
  else fetchWeather (trim (searchQuery st)) st.

Definition with_error (m : string) (st : state) : state :=
  {| weatherData := weatherData st; loading := loading st;
     searchQuery := searchQuery st; errorMessage := VStr m |}.

(** The template literal of a position: latitude, comma, longitude. *)
Definition position_query (lat lon : number) : string :=
  text (number_chars lat) +:+ "," +:+ text (number_chars lon).

Definition locate (dev : device) (st : state) : M thrown (list (string * value) * state) :=
  match position dev with
  | Some (lat, lon) => fetchWeather (position_query lat lon) st
  | None =>
      ret ([], {| weatherData := weatherData st; loading := false;
                  searchQuery := searchQuery st;
                  errorMessage :=
                    VStr "Failed to get current location. Please enable GPS." |})
  end.

Definition handleCurrentLocation (dev : device) (st : state)
  : M thrown (list (string * value) * state) :=
  if android dev then
    match permission_answer dev with
    | Granted => locate dev st
    | Refused => ret ([], with_error "Location permission denied." st)
    | Failed => ret ([], with_error "Error requesting location permission." st)
    end
  else locate dev st.

End Screen.

End WeatherScreen.

(** *** The login and registration form of the application *)

Module App.

Record state := {
  isLoggedIn : bool;
  loggedInUser : value;
  isLogin : bool;           (* the login tab, not the registration tab *)
  name : string;
  email : string;
  password : string;
  isLoading : bool
}.

(** A call of [fetch] and what it resolves to: the status and the text of
    the body. *)
Record fetch_call := {
  fetch_url : string;
  fetch_method : method;
  fetch_headers : gmap string string;
  fetch_body : string
}.

Record fetch_response := { fetch_status : Z; fetch_text : string }.

(** What the [try] block of a handler can throw: [fetch] rejects without
    a response, [response.json()] finds no JSON, or a property of [null]
    is read. *)
Inductive failure := NetworkFailed | BodyNotJSON | PropertyOfNull.

(** What a handler did: the alerts as (title, message), the state when it
    has finished, the calls of [fetch] it made. *)
Record outcome := {
  alerts : list (string * option value);
  after : state;
  calls : list fetch_call
}.

(** Reading a property of [null] throws. *)
Definition is_null (v : value) : bool :=
  match v with VNull => true | _ => false end.

(** [response.ok]: the status is in the range 200-299. *)
Definition ok (r : fetch_response) : bool :=
  (200 <=? fetch_status r) && (fetch_status r <=? 299).

Definition post (url : string) (body : value) : fetch_call :=
  {| fetch_url := url; fetch_method := POST;
     fetch_headers := {[ "Content-Type"%string := "application/json"%string ]};
     fetch_body := JSON_stringify body |}.

(** The objects the handlers send, as [JSON.stringify] is given them. *)
Definition register_body (st : state) : value :=
  VObj [("name"%string, VStr (name st)); ("email"%string, VStr (email st));
        ("password"%string, VStr (password st))].

Definition login_body (st : state) : value :=
  VObj [("email"%string, VStr (email st)); ("password"%string, VStr (password st))].

Definition register_call (st : state) : fetch_call :=
  post "http://192.168.0.100/php_api/auth/register" (register_body st).

Definition login_call (st : state) : fetch_call :=
  post "http://192.168.0.100/php_api/auth/login" (login_body st).

Definition with_loading (b : bool) (st : state) : state :=
  {| isLoggedIn := isLoggedIn st; loggedInUser := loggedInUser st;
     isLogin := isLogin st; name := name st; email := email st;
     password := password st; isLoading := b |}.

Section Handlers.

(** The network as [fetch] sees it; [None] is a rejection. *)
Variable network : fetch_call -> option fetch_response.

(** The text the engine gives an exception as its [message]. *)
Variable engine_text : failure -> string.

(** The [catch] and [finally] of both handlers. *)
Definition network_error (e : failure) (st : state) (c : fetch_call) : outcome :=
  {| alerts := [("Error"%string, Some (VStr ("Network error: " +:+ engine_text e)))];
     after := with_loading false st;
     calls := [c] |}.

Definition error_alert (data : value) (fallback : string) (st : state) (c : fetch_call)
  : outcome :=
  {| alerts := [("Error"%string, Some (or_else (get_prop data "message") (VStr fallback)))];
     after := with_loading false st;
     calls := [c] |}.

Definition handleRegister (st : state) : outcome :=
  if is_empty (name st) || is_empty (email st) || is_empty (password st) then
    {| alerts := [("Error"%string, Some (VStr "Please fill all fields for registration."))];
       after := st; calls := [] |}
  else
    let c := register_call st in
    match network c with
    | None => network_error NetworkFailed st c
    | Some response =>
        match JSON_parse (fetch_text response) with
        | None => network_error BodyNotJSON st c
        | Some data =>
            if is_null data then network_error PropertyOfNull st c
            else if ok response then
              {| alerts := [("Success"%string, get_prop data "message")];
                 after := {| isLoggedIn := isLoggedIn st; loggedInUser := loggedInUser st;
                             isLogin := true; name := EmptyString; email := EmptyString;
                             password := EmptyString; isLoading := false |};
                 calls := [c] |}
            else error_alert data "Registration failed" st c
        end
    end.

Definition handleLogin (st : state) : outcome :=
  if is_empty (email st) || is_empty (password st) then
    {| alerts := [("Error"%string, Some (VStr "Please fill all fields for login."))];
       after := st; calls := [] |}
  else
    let c := login_call st in
    match network c with
    | None => network_error NetworkFailed st c
    | Some response =>
        match JSON_parse (fetch_text response) with
        | None => network_error BodyNotJSON st c
        | Some data =>
            if is_null data then network_error PropertyOfNull st c
            else if ok response && truthy_opt (get_prop data "user") then
              {| alerts := [];
                 after := {| isLoggedIn := true;
                             loggedInUser :=
                               match get_prop data "user" with
                               | Some user => user
                               | None => loggedInUser st
                               end;
                             isLogin := isLogin st; name := name st; email := email st;
                             password := password st; isLoading := false |};
                 calls := [c] |}
            else error_alert data "Login failed" st c
        end
    end.

End Handlers.

Definition handleLogout (st : state) : state :=
  {| isLoggedIn := false; loggedInUser := VNull; isLogin := isLogin st;
     name := name st; email := EmptyString; password := EmptyString;
     isLoading := isLoading st |}.

(** The weather screen is shown instead of the form. *)
Definition shows_weather (st : state) : bool :=
  isLoggedIn st && truthy (loggedInUser st).

End App.

(** ** Notions of the further properties *)


(** Nothing but white space: every character is one of the white space
    characters or line terminators of the language. *)
Fixpoint white_chars (l : list ascii) : bool :=
  match l with
  | [] => true
  | a :: r =>
      if space1 a then white_chars r
      else
        match r with
        | [] => false
        | b :: r2 =>
            if space2 a b then white_chars r2
            else
              match r2 with
              | [] => false
              | c :: r3 => space3 a b c && white_chars r3
              end
        end
  end.

Definition white (s : string) : bool := white_chars (chars s).

(** A form that lacks nothing but, maybe, the position and the user. *)
Definition filled (f : form) : bool :=
  negb (is_empty (hazardType f)) && negb (is_empty (trim (description f))).



(** Inputs the properties are run on. *)
Definition only_spaces : form :=
  {| hazardType := "Pollution";
     description := text (" "%char :: utf8 160 ++ ["009"%char]);   (* space, U+00A0, tab *)
     locationName := "Pier 3";
     latitude := VNum (Dec 327157 4); longitude := VNum (Dec (-1171611) 4);
     currentUser := ann |}.

Definition unlocated : form :=
  {| hazardType := "Debris"; description := "A drifting container";
     locationName := EmptyString;
     latitude := VNull; longitude := VNull; currentUser := ann |}.

(** A phone on the equator, south of Accra. *)
Definition on_the_equator : device :=
  {| android := true; permission_answer := Granted;
     position := Some (Int 0, Dec (-15) 1) |}.

Definition without_permission : device :=
  {| android := true; permission_answer := Refused;
     position := Some (Dec 327157 4, Dec (-1171611) 4) |}.

Definition in_san_diego : device :=
  {| android := true; permission_answer := Granted;
     position := Some (Dec 327157 4, Dec (-1171611) 4) |}.

Definition searching (q : string) : WeatherScreen.state :=
  {| WeatherScreen.weatherData := VNull; WeatherScreen.loading := false;
     WeatherScreen.searchQuery := q; WeatherScreen.errorMessage := VNull |}.

Definition plain_message : error -> string := fun _ => "undefined is not a function".

(** The form of the application with Ann's credentials typed in, and a
    server that accepts them. *)
Definition typed_in : App.state :=
  {| App.isLoggedIn := false; App.loggedInUser := VNull; App.isLogin := true;
     App.name := EmptyString; App.email := "ann@example.org";
     App.password := "hunter2"; App.isLoading := false |}.

Definition accepting : App.fetch_call -> option App.fetch_response :=
  fun _ => Some {| App.fetch_status := 200;
                   App.fetch_text := JSON_stringify (VObj [("user"%string, ann)]) |}.

Definition plain_text : App.failure -> string := fun _ => "Network request failed".

(** * Properties *)

(** ** Text *)

Lemma chars_text l : chars (text l) = l.
Proof. apply list_ascii_of_string_of_list_ascii. Qed.

Lemma text_chars s : text (chars s) = s.
Proof. apply string_of_list_ascii_of_string. Qed.

Lemma skip_ws_length s : (length (skip_ws s) <= length s)%nat.
Proof.
  induction s as [|c r IH]; simpl; [lia|].
  destruct (is_ws c); simpl; lia.
Qed.

Lemma skip_ws_cons c r : is_ws c = false -> skip_ws (c :: r) = c :: r.
Proof. intros H. simpl. now rewrite H. Qed.

(** ** Digits *)

Lemma read_digits_chars d rest :
  not_digit_head rest -> read_digits (uint_chars d ++ rest) = (d, rest).
Proof.
  intros H. induction d; simpl; try (rewrite IHd; reflexivity).
  destruct rest as [|c r]; simpl in *; [reflexivity|now rewrite H].
Qed.

Lemma read_digits_length s d r :
  read_digits s = (d, r) -> (length r + Decimal.nb_digits d = length s)%nat.
Proof.
  revert d r. induction s as [|c s IH]; simpl; intros d r H.
  - inversion H; reflexivity.
  - destruct (digit_of c) as [D|] eqn:E.
    + destruct (read_digits s) as [d' r'] eqn:E'. inversion H; subst.
      specialize (IH _ _ eq_refl).
      unfold digit_of in E.
      repeat match type of E with
             | (if ?b then _ else _) = _ => destruct b; [inversion E; subst; simpl; lia|]
             end.
      discriminate.
    + inversion H; subst. simpl. lia.
Qed.

Lemma unorm_to_uint n : Decimal.unorm (N.to_uint n) = N.to_uint n.
Proof.
  rewrite <- (Unsigned.of_to n) at 2. now rewrite Unsigned.to_of.
Qed.

Lemma uint_beq_refl d : Decimal.uint_beq d d = true.
Proof. apply Decimal.internal_uint_dec_lb. reflexivity. Qed.

(** ** Numbers: what [JSON.stringify] writes, [JSON.parse] reads back *)

Lemma read_sign_digits d rest :
  d <> Decimal.Nil ->
  read_sign (uint_chars d ++ rest) = (false, uint_chars d ++ rest).
Proof. intros H. destruct d; [congruence| reflexivity ..]. Qed.

Lemma to_uint_nonnil n : N.to_uint n <> Decimal.Nil.
Proof. rewrite <- unorm_to_uint. apply unorm_nonnil. Qed.

Lemma uint_chars_map d : uint_chars d = map digit_char (to_list d).
Proof. induction d; simpl; congruence. Qed.

Lemma drop_zeros_map l : drop_zeros (map digit_char l) = map digit_char (lnzhead l).
Proof.
  induction l as [|d l IH]; [reflexivity|].
  destruct d; simpl; try reflexivity. exact IH.
Qed.

Lemma of_lu_zeros j d : (DecimalPos.Unsigned.of_lu (Nat.iter j Decimal.D0 d) = 10 ^ N.of_nat j * DecimalPos.Unsigned.of_lu d)%N.
Proof.
  induction j as [|j IH].
  - simpl. now rewrite N.mul_1_l.
  - rewrite Nat2N.inj_succ, N.pow_succ_r', <- N.mul_assoc, <- IH. reflexivity.
Qed.

Lemma to_list_zeros j d : to_list (Nat.iter j Decimal.D0 d) = repeat d0 j ++ to_list d.
Proof. induction j; simpl; congruence. Qed.

(** Zeros after the digits multiply by a power of ten. *)
Lemma of_uint_trailing_zeros l j :
  (N.of_uint (of_list (l ++ repeat d0 j)) = N.of_uint (of_list l) * 10 ^ N.of_nat j)%N.
Proof.
  unfold N.of_uint. rewrite !DecimalPos.Unsigned.of_uint_alt.
  assert (E : Decimal.rev (of_list (l ++ repeat d0 j))
              = Nat.iter j Decimal.D0 (Decimal.rev (of_list l))).
  { apply to_list_inj.
    rewrite to_list_zeros, !rev_spec, !to_list_of_list, rev_app_distr, rev_repeat.
    reflexivity. }
  rewrite E, of_lu_zeros. apply N.mul_comm.
Qed.

(** Zeros before the digits change nothing. *)
Lemma of_uint_leading_zeros l j :
  N.of_uint (of_list (repeat d0 j ++ l)) = N.of_uint (of_list l).
Proof.
  replace (of_list (repeat d0 j ++ l)) with (Nat.iter j Decimal.D0 (of_list l))
    by (apply to_list_inj; now rewrite to_list_zeros, !to_list_of_list).
  rewrite <- (Unsigned.of_uint_norm (Nat.iter _ _ _)), unorm_iter_D0.
  apply Unsigned.of_uint_norm.
Qed.

Lemma frac_text_digits f : f <> Decimal.Nil -> frac_text f = "."%char :: uint_chars f.
Proof. destruct f; [congruence| reflexivity ..]. Qed.

Lemma not_digit_exp e rest : number_stop rest -> not_digit_head (exp_text e ++ rest).
Proof.
  destruct e as [z|]; [exact (fun _ => eq_refl)|].
  destruct rest; [exact (fun H => H)|]. now intros (H & _).
Qed.

Lemma not_digit_frac f e rest :
  number_stop rest -> not_digit_head (frac_text f ++ exp_text e ++ rest).
Proof.
  intros H. destruct f; [now apply not_digit_exp| reflexivity ..].
Qed.

Lemma read_fraction_text f e rest :
  number_stop rest ->
  read_fraction (frac_text f ++ exp_text e ++ rest) = Some (f, exp_text e ++ rest).
Proof.
  intros H. destruct (Decimal.uint_eq_dec f Decimal.Nil) as [->|Hf].
  - simpl. destruct e as [z|]; [reflexivity|]. simpl.
    destruct rest as [|c r]; [reflexivity|]. simpl.
    destruct H as (_ & -> & _). reflexivity.
  - rewrite (frac_text_digits f Hf). simpl.
    rewrite read_digits_chars by now apply not_digit_exp.
    destruct f; [congruence| reflexivity ..].
Qed.

Lemma read_exponent_text e rest :
  number_stop rest ->
  read_exponent (exp_text e ++ rest)
  = Some (match e with Some z => z | None => 0 end, rest).
Proof.
  intros H. destruct e as [z|]; simpl.
  - assert (Hd : not_digit_head rest)
      by (destruct rest; [exact I|now destruct H]).
    destruct (Z.leb_spec 0 z); simpl.
    + unfold nat_chars in *. rewrite read_digits_chars by exact Hd.
      pose proof (to_uint_nonnil (Z.abs_N z)) as Hz.
      destruct (N.to_uint (Z.abs_N z)) eqn:E; [congruence| ..];
        rewrite <- E, Unsigned.of_to, N2Z.inj_abs_N; f_equal; f_equal; lia.
    + unfold nat_chars in *. rewrite read_digits_chars by exact Hd.
      pose proof (to_uint_nonnil (Z.abs_N z)) as Hz.
      destruct (N.to_uint (Z.abs_N z)) eqn:E; [congruence| ..];
        rewrite <- E, Unsigned.of_to, N2Z.inj_abs_N; f_equal; f_equal; lia.
  - destruct rest as [|c r]; [reflexivity|]. simpl.
    destruct H as (_ & _ & ->). reflexivity.
Qed.

Lemma unorm_nonnil_id i : Decimal.unorm i = i -> i <> Decimal.Nil.
Proof. intros <-. apply unorm_nonnil. Qed.

(** The reading of a number text: sign, integer part, fraction, exponent. *)
Lemma parse_scientific (neg : bool) i f e rest :
  Decimal.unorm i = i -> number_stop rest ->
  read_number ((if neg then ["-"%char] else [])
                  ++ uint_chars i ++ frac_text f ++ exp_text e ++ rest)
  = Some (make_number neg (N.of_uint (Decimal.app i f))
            (match e with Some z => z | None => 0 end - Z.of_nat (Decimal.nb_digits f)),
          rest).
Proof.
  intros Hi Hstop. unfold read_number.
  assert (Hsign : read_sign ((if neg then ["-"%char] else [])
                               ++ uint_chars i ++ frac_text f ++ exp_text e ++ rest)
                  = (neg, uint_chars i ++ frac_text f ++ exp_text e ++ rest)).
  { destruct neg; [reflexivity|]. apply read_sign_digits, unorm_nonnil_id, Hi. }
  rewrite Hsign, read_digits_chars by now apply not_digit_frac.
  rewrite Hi, uint_beq_refl, read_fraction_text, read_exponent_text by exact Hstop.
  reflexivity.
Qed.

Lemma digits_of_pos p :
  exists c l, to_list (N.to_uint (Npos p)) = c :: l /\ c <> d0.
Proof.
  pose proof (unorm_to_uint (Npos p)) as Hu.
  pose proof (DecimalPos.Unsigned.to_uint_nonzero p) as Hz.
  simpl in Hu. apply (f_equal to_list) in Hu. rewrite unorm_spec in Hu.
  unfold lunorm in Hu. simpl N.to_uint.
  destruct (lnzhead (to_list (Pos.to_uint p))) as [|c l] eqn:E.
  - destruct Hz. apply to_list_inj. now rewrite <- Hu.
  - exists c, l. split; [now rewrite <- Hu|].
    intros ->. now apply lnzhead_neq_d0_head in E.
Qed.

Lemma of_uint_digits n : N.of_uint (of_list (to_list (N.to_uint n))) = n.
Proof. now rewrite of_list_to_list, Unsigned.of_to. Qed.

Lemma unorm_nonzero_head c l : c <> d0 -> Decimal.unorm (of_list (c :: l)) = of_list (c :: l).
Proof.
  intros Hc. apply to_list_inj. rewrite unorm_spec, to_list_of_list.
  unfold lunorm. now rewrite lnzhead_head_nd0 by exact Hc.
Qed.

Lemma uint_chars_of_list l : uint_chars (of_list l) = map digit_char l.
Proof. now rewrite uint_chars_map, to_list_of_list. Qed.

Lemma frac_text_of_list l :
  frac_text (of_list l)
  = match l with [] => [] | _ => "."%char :: map digit_char l end.
Proof.
  destruct l as [|c l]; [reflexivity|].
  rewrite frac_text_digits, uint_chars_of_list; [reflexivity|].
  destruct c; discriminate.
Qed.

Lemma app_of_list l1 l2 : Decimal.app (of_list l1) (of_list l2) = of_list (l1 ++ l2).
Proof. apply to_list_inj. now rewrite app_spec, !to_list_of_list. Qed.

Lemma nb_digits_of_list l : Decimal.nb_digits (of_list l) = length l.
Proof. now rewrite nb_digits_spec, to_list_of_list. Qed.

(** The significant digits of an integer, and its trailing zeros. *)
Lemma trailing_zeros_split l :
  l = List.rev (lnzhead (List.rev l))
        ++ repeat d0 (length l - length (List.rev (lnzhead (List.rev l)))).
Proof.
  assert (H : forall r, r = repeat d0 (length r - length (lnzhead r)) ++ lnzhead r
                        /\ (length (lnzhead r) <= length r)%nat).
  { induction r as [|d r [IH1 IH2]]; [split; [reflexivity|simpl; lia]|].
    destruct d; simpl; try (split; [now rewrite Nat.sub_diag|lia]).
    split; [|lia].
    replace (S (length r) - length (lnzhead r))%nat
      with (S (length r - length (lnzhead r))) by lia.
    simpl. now rewrite <- IH1. }
  destruct (H (List.rev l)) as [H1 _].
  apply (f_equal (@List.rev digits)) in H1.
  rewrite rev_app_distr, rev_repeat, rev_involutive in H1.
  now rewrite !length_rev in *.
Qed.

Lemma drop_trailing_zeros_map l :
  drop_trailing_zeros (map digit_char l)
  = map digit_char (List.rev (lnzhead (List.rev l))).
Proof.
  unfold drop_trailing_zeros. now rewrite <- map_rev, drop_zeros_map, map_rev.
Qed.

Lemma make_number_int (z : Z) (M : N) (j : Z) :
  0 <= j -> Z.of_N M * 10 ^ j = Z.abs z ->
  make_number (z <? 0) M j = Int z.
Proof.
  intros Hj H. unfold make_number.
  replace (0 <=? j) with true by (symmetry; now apply Z.leb_le).
  f_equal. destruct (Z.ltb_spec z 0); lia.
Qed.

Lemma make_number_dec (m : Z) (k : positive) :
  m mod 10 <> 0 ->
  make_number (m <? 0) (Z.abs_N m) (- Z.pos k) = Dec m k.
Proof.
  intros H. unfold make_number. simpl (0 <=? - Z.pos k).
  assert (Hz : (if m <? 0 then - Z.of_N (Z.abs_N m) else Z.of_N (Z.abs_N m)) = m)
    by (rewrite N2Z.inj_abs_N; destruct (Z.ltb_spec m 0); lia).
  rewrite Hz, Z.opp_involutive.
  change (Z.to_nat (Z.pos k)) with (Pos.to_nat k).
  destruct (Pos2Nat.is_succ k) as [k' Hk]. rewrite Hk. simpl.
  apply Z.eqb_neq in H. rewrite H. f_equal.
  apply Pos2Nat.inj. now rewrite SuccNat2Pos.id_succ.
Qed.

Lemma number_text_plain (neg : bool) l rest :
  (if neg then ["-"%char] else []) ++ map digit_char l ++ rest
  = (if neg then ["-"%char] else [])
      ++ uint_chars (of_list l) ++ frac_text Decimal.Nil ++ exp_text None ++ rest.
Proof. now rewrite uint_chars_of_list. Qed.

Lemma exponent_form_text c t e :
  exponent_form (map digit_char (c :: t)) e
  = uint_chars (of_list [c]) ++ frac_text (of_list t) ++ exp_text (Some e).
Proof.
  rewrite frac_text_of_list, uint_chars_of_list. destruct t; reflexivity.
Qed.

Lemma read_number_int z rest :
  number_stop rest ->
  read_number (number_chars (Int z) ++ rest) = Some (Int z, rest).
Proof.
  intros Hstop.
  destruct (Z.eq_dec z 0) as [->|Hz];
    [exact (parse_scientific false (Decimal.D0 Decimal.Nil) Decimal.Nil None rest
              eq_refl Hstop)|].
  assert (Hn : number_chars (Int z)
               = sign_chars z
                   ++ toString_digits (drop_trailing_zeros (nat_chars (Z.abs_N z)))
                        (Z.of_nat (length (nat_chars (Z.abs_N z)))))
    by (destruct z; [congruence|reflexivity ..]).
  rewrite Hn. clear Hn.
  destruct (Z.abs_N z) as [|p] eqn:Ea; [lia|].
  destruct (digits_of_pos p) as (c & l' & Hl & Hc).
  unfold nat_chars. rewrite uint_chars_map, Hl, drop_trailing_zeros_map, length_map.
  pose proof (trailing_zeros_split (c :: l')) as Hsplit.
  remember (List.rev (lnzhead (List.rev (c :: l')))) as t eqn:Et.
  remember (length (c :: l') - length t)%nat as j eqn:Ej.
  assert (Ht : exists t', t = c :: t').
  { destruct t as [|c0 t'].
    - destruct j; simpl in Hsplit; [discriminate|]. injection Hsplit as -> _. congruence.
    - simpl in Hsplit. injection Hsplit as -> _. now exists t'. }
  destruct Ht as [t' Ht].
  assert (Hlen : length (c :: l') = (length t + j)%nat)
    by (rewrite Hsplit at 1; now rewrite length_app, repeat_length).
  assert (Hval : forall i, Z.of_nat j = i ->
                 Z.of_N (N.of_uint (of_list t)) * 10 ^ i = Z.abs z).
  { intros i <-.
    rewrite <- N2Z.inj_abs_N, Ea, <- (of_uint_digits (Npos p)), Hl, Hsplit.
    now rewrite of_uint_trailing_zeros, N2Z.inj_mul, N2Z.inj_pow, nat_N_Z. }
  unfold toString_digits, sign_chars. rewrite length_map.
  destruct ((Z.of_nat (length t) <=? Z.of_nat (length (c :: l')))
            && (Z.of_nat (length (c :: l')) <=? 21)) eqn:Eplain.
  - replace (Z.to_nat (Z.of_nat (length (c :: l')) - Z.of_nat (length t))) with j by lia.
    replace (map digit_char t ++ repeat "0"%char j) with (map digit_char (c :: l'))
      by (rewrite Hsplit at 1; now rewrite map_app, map_repeat).
    rewrite <- List.app_assoc, number_text_plain.
    rewrite parse_scientific by (try exact Hstop; now apply unorm_nonzero_head).
    rewrite DecimalFacts.app_nil_r, <- Hl, of_uint_digits.
    f_equal. f_equal. apply make_number_int; [simpl; lia|].
    rewrite <- N2Z.inj_abs_N, Ea. simpl. lia.
  - assert (H21 : 21 < Z.of_nat (length (c :: l'))).
    { apply andb_false_iff in Eplain as [E|E];
        [apply Z.leb_gt in E|apply Z.leb_gt in E]; lia. }
    replace ((0 <? Z.of_nat (length (c :: l'))) && (Z.of_nat (length (c :: l')) <=? 21))
      with false by (symmetry; apply andb_false_iff; right; apply Z.leb_gt; lia).
    replace ((-6 <? Z.of_nat (length (c :: l'))) && (Z.of_nat (length (c :: l')) <=? 0))
      with false by (symmetry; apply andb_false_iff; right; apply Z.leb_gt; lia).
    assert (Etext : exponent_form (map digit_char t) (Z.of_nat (length (c :: l')) - 1)
                    = uint_chars (of_list [c]) ++ frac_text (of_list t')
                        ++ exp_text (Some (Z.of_nat (length (c :: l')) - 1)))
      by (rewrite Ht; apply exponent_form_text).
    rewrite Etext, <- !List.app_assoc.
    rewrite parse_scientific by (try exact Hstop; now apply unorm_nonzero_head).
    rewrite app_of_list, nb_digits_of_list. simpl ([c] ++ t'). rewrite <- Ht.
    f_equal. f_equal. apply make_number_int.
    + rewrite Ht in Hlen. simpl in Hlen |- *. lia.
    + apply Hval. rewrite Ht in Hlen. simpl in Hlen |- *. lia.
Qed.

Lemma read_number_dec m k rest :
  m mod 10 <> 0 -> number_stop rest ->
  read_number (number_chars (Dec m k) ++ rest) = Some (Dec m k, rest).
Proof.
  intros Hm Hstop. unfold number_chars, sign_chars.
  destruct (Z.abs_N m) as [|p] eqn:Ea; [destruct Hm; now replace m with 0 by lia|].
  destruct (digits_of_pos p) as (c & l' & Hl & Hc).
  assert (Ha : N.of_uint (of_list (c :: l')) = Z.abs_N m)
    by (now rewrite Ea, <- Hl, of_uint_digits).
  unfold nat_chars. rewrite uint_chars_map, Hl. unfold toString_digits.
  rewrite length_map.
  remember (length (c :: l')) as kd eqn:Ekd.
  assert (Hkd : (1 <= kd)%nat) by (subst kd; simpl; lia).
  replace ((Z.of_nat kd <=? Z.of_nat kd - Z.pos k) && (Z.of_nat kd - Z.pos k <=? 21))
    with false by (symmetry; apply andb_false_iff; left; apply Z.leb_gt; lia).
  destruct ((0 <? Z.of_nat kd - Z.pos k) && (Z.of_nat kd - Z.pos k <=? 21)) eqn:E2.
  - apply andb_prop in E2 as [E2 _]. apply Z.ltb_lt in E2.
    rewrite List.firstn_map, List.skipn_map.
    remember (Z.to_nat (Z.of_nat kd - Z.pos k)) as n eqn:En.
    destruct n as [|n]; [lia|].
    assert (Hskip : length (skipn (S n) (c :: l')) = Pos.to_nat k)
      by (rewrite length_skipn, <- Ekd; lia).
    assert (Etext : map digit_char (firstn (S n) (c :: l'))
                      ++ "."%char :: map digit_char (skipn (S n) (c :: l'))
                    = uint_chars (of_list (firstn (S n) (c :: l')))
                        ++ frac_text (of_list (skipn (S n) (c :: l'))) ++ exp_text None).
    { rewrite frac_text_of_list, uint_chars_of_list, List.app_nil_r.
      destruct (skipn (S n) (c :: l')); [simpl in Hskip; lia|reflexivity]. }
    rewrite Etext, <- !List.app_assoc.
    rewrite parse_scientific by (try exact Hstop; simpl firstn; now apply unorm_nonzero_head).
    rewrite app_of_list, firstn_skipn, nb_digits_of_list, Hskip, Ha.
    f_equal. f_equal.
    replace (0 - Z.of_nat (Pos.to_nat k)) with (- Z.pos k) by lia.
    now apply make_number_dec.
  - destruct ((-6 <? Z.of_nat kd - Z.pos k) && (Z.of_nat kd - Z.pos k <=? 0)) eqn:E3.
    + apply andb_prop in E3 as [_ E3]. apply Z.leb_le in E3.
      remember (Z.to_nat (- (Z.of_nat kd - Z.pos k))) as j eqn:Ej.
      assert (Etext : "0"%char :: "."%char :: repeat "0"%char j ++ map digit_char (c :: l')
                      = uint_chars (of_list [d0])
                          ++ frac_text (of_list (repeat d0 j ++ c :: l')) ++ exp_text None).
      { rewrite frac_text_of_list, List.app_nil_r, map_app, map_repeat.
        destruct j; reflexivity. }
      rewrite Etext, <- !List.app_assoc.
      rewrite parse_scientific by (try exact Hstop; reflexivity).
      rewrite app_of_list, nb_digits_of_list, length_app, repeat_length, <- Ekd.
      change ([d0] ++ repeat d0 j ++ c :: l') with (repeat d0 (S j) ++ c :: l').
      rewrite of_uint_leading_zeros, Ha.
      f_equal. f_equal.
      replace (0 - Z.of_nat (j + kd)) with (- Z.pos k) by lia.
      now apply make_number_dec.
    + rewrite exponent_form_text, <- !List.app_assoc.
      rewrite parse_scientific by (try exact Hstop; now apply unorm_nonzero_head).
      rewrite app_of_list, nb_digits_of_list. simpl ([c] ++ l'). rewrite Ha.
      f_equal. f_equal.
      replace (Z.of_nat kd - Z.pos k - 1 - Z.of_nat (length l')) with (- Z.pos k)
        by (subst kd; simpl length; lia).
      now apply make_number_dec.
Qed.

(** The decimal of a finite number is read back from its text. *)
Lemma read_number_chars x rest :
  number_ok x = true -> number_stop rest ->
  read_number (number_chars x ++ rest) = Some (x, rest).
Proof.
  destruct x as [z|m k| |b]; unfold number_ok; intros H Hstop; try discriminate.
  - now apply read_number_int.
  - apply read_number_dec; [|exact Hstop].
    apply andb_prop in H as [H _]. apply negb_true_iff, Z.eqb_neq in H. exact H.
Qed.

Lemma number_eqb_eq x y : number_eqb x y = true -> x = y.
Proof.
  destruct x, y; simpl; try discriminate; intros H.
  - apply Z.eqb_eq in H. now subst.
  - apply andb_prop in H as [H1 H2]. apply Z.eqb_eq in H1. apply Pos.eqb_eq in H2.
    now subst.
  - reflexivity.
  - apply Bool.eqb_prop in H. now subst.
Qed.

Lemma number_ok_value x : number_ok x = true -> Number_value false x = x.
Proof.
  destruct x as [z|m k| |b]; unfold number_ok; intros H; try discriminate.
  - now apply number_eqb_eq.
  - apply andb_prop in H as [_ H]. now apply number_eqb_eq.
Qed.

Lemma Number_value_sign b x : x <> Int 0 -> Number_value b x = Number_value false x.
Proof. destruct x as [[|p|p]|m k| |c]; try reflexivity. congruence. Qed.

Lemma number_eq_zero x : {x = Int 0} + {x <> Int 0}.
Proof. destruct x as [[|p|p]|m k| |c]; (now left) || (right; discriminate). Qed.

Lemma parse_number_read s n r :
  parse_number s = Some (n, r) -> exists x, read_number s = Some (x, r).
Proof.
  unfold parse_number. destruct (read_number s) as [[x r']|]; [|discriminate].
  intros [= _ <-]. now exists x.
Qed.

(** Every finite number is read back from its text. *)
Theorem parse_number_chars x rest :
  number_ok x = true -> number_stop rest ->
  parse_number (number_chars x ++ rest) = Some (x, rest).
Proof.
  intros H Hstop. unfold parse_number. rewrite (read_number_chars x rest H Hstop).
  f_equal. f_equal.
  destruct (number_eq_zero x) as [->|Hx].
  - reflexivity.
  - rewrite (Number_value_sign _ x Hx). now apply number_ok_value.
Qed.

(** ** Strings: a quoted string is read back *)

Lemma parse_quote_char c tail :
  parse_chars (quote_char c ++ tail) = prepend [c] (parse_chars tail).
Proof.
  destruct c as [[] [] [] [] [] [] [] []]; try reflexivity;
    destruct tail as [|b [|u [|g1 [|g2 [|g3 [|g4 r3]]]]]]; reflexivity.
Qed.

Lemma parse_quote_chars s rest :
  parse_chars (quote_chars s ++ "034"%char :: rest) = Some (s, rest).
Proof.
  induction s as [|c s IH]; [reflexivity|].
  simpl quote_chars. rewrite <- app_assoc, parse_quote_char, IH. reflexivity.
Qed.

(** ** Objects: creating the properties of an object in order rebuilds it *)

Lemma obj_insert_end k v acc :
  forallb (fun p => negb (key_before k (fst p))) acc = true ->
  obj_insert k v acc = acc ++ [(k, v)].
Proof.
  induction acc as [|[k' v'] acc IH]; simpl; [reflexivity|].
  intros H. apply andb_prop in H as [H1 H2].
  apply negb_true_iff in H1. rewrite H1. now rewrite IH.
Qed.

Lemma build_from acc ms :
  keys_ok acc ms = true ->
  fold_left (fun o m => obj_set (fst m) (snd m) o) ms acc = acc ++ ms.
Proof.
  revert acc. induction ms as [|[k v] ms IH]; intros acc H; simpl in *.
  - now rewrite List.app_nil_r.
  - apply andb_prop in H as [H H3]. apply andb_prop in H as [H1 H2].
    apply negb_true_iff in H1.
    unfold obj_set at 2. rewrite H1, obj_insert_end by exact H2.
    rewrite IH by exact H3. now rewrite <- app_assoc.
Qed.

Lemma build_object_id ps : keys_ok [] ps = true -> build_object ps = ps.
Proof. intros H. unfold build_object. now rewrite build_from. Qed.

(** ** Values: [JSON.parse] reads back what [JSON.stringify] wrote *)

(** A number text begins with a minus sign or a digit, and there
    [parse_value] reads a number. *)
Lemma read_number_head s n r :
  read_number s = Some (n, r) ->
  exists c s', s = c :: s' /\ (c = "-"%char \/ digit_of c <> None).
Proof.
  destruct s as [|c s']; [discriminate|]. intros H. exists c, s'. split; [reflexivity|].
  destruct (Ascii.eqb_spec c "-") as [->|Hc]; [now left|right].
  intros Hd. unfold read_number, read_sign in H.
  apply Ascii.eqb_neq in Hc. rewrite Hc in H. simpl in H. rewrite Hd in H.
  discriminate.
Qed.

Lemma parse_number_head s n r :
  parse_number s = Some (n, r) ->
  exists c s', s = c :: s' /\ (c = "-"%char \/ digit_of c <> None).
Proof.
  intros H. destruct (parse_number_read _ _ _ H) as [x Hx].
  exact (read_number_head _ _ _ Hx).
Qed.

Lemma digit_cases c (P : ascii -> Prop) :
  P "-"%char -> P "0"%char -> P "1"%char -> P "2"%char -> P "3"%char -> P "4"%char ->
  P "5"%char -> P "6"%char -> P "7"%char -> P "8"%char -> P "9"%char ->
  c = "-"%char \/ digit_of c <> None -> P c.
Proof.
  intros Hm H0 H1 H2 H3 H4 H5 H6 H7 H8 H9 [->|H]; [exact Hm|].
  unfold digit_of in H.
  repeat match type of H with
         | (if Ascii.eqb c ?x then _ else _) <> _ =>
             destruct (Ascii.eqb_spec c x) as [->|_]; [assumption|]
         end.
  congruence.
Qed.

Lemma parse_value_number fuel s n r :
  parse_number s = Some (n, r) ->
  parse_value (S fuel) s = Some (VNum n, r).
Proof.
  intros H. destruct (parse_number_head _ _ _ H) as (c & s' & -> & Hc).
  revert H. pattern c. apply digit_cases; [..|exact Hc];
    intros H; cbn [parse_value]; simpl skip_ws; cbv iota; simpl Ascii.eqb; cbv iota;
    now rewrite H.
Qed.

Lemma number_chars_start n rest :
  number_ok n = true -> value_start (number_chars n ++ rest).
Proof.
  intros H. pose proof (parse_number_chars n [] H I) as Hp.
  rewrite List.app_nil_r in Hp.
  destruct (parse_number_head _ _ _ Hp) as (c & s' & -> & Hc).
  simpl. pattern c. apply digit_cases; [..|exact Hc]; repeat split.
Qed.

Lemma json_number_ok n : number_ok n = true -> json_number n = number_chars n.
Proof. destruct n; try reflexivity. discriminate. Qed.

Lemma print_value_start v rest :
  lossless v = true -> value_start (print_value v ++ rest).
Proof.
  destruct v as [|[]|n|s|[|x xs]|[|p ps]]; intros H; try (repeat split).
  change (print_value (VNum n)) with (json_number n). rewrite (json_number_ok n H).
  now apply number_chars_start.
Qed.

Lemma skip_ws_start s : value_start s -> skip_ws s = s.
Proof.
  destruct s as [|c r]; [intros []|]. intros (H & _). now apply skip_ws_cons.
Qed.

Lemma elements_read_back xs :
  Forall reads_back xs ->
  forall x, reads_back x ->
  forallb lossless (x :: xs) = true ->
  forall fuel rest,
    (fold_right (fun x h => S (Nat.max (height x) h)) O (x :: xs) <= fuel)%nat ->
    parse_elements fuel (print_value x ++ print_rest "]" print_value xs ++ rest)
    = Some (x :: xs, rest).
Proof.
  induction 1 as [|y ys Hy Hys IH]; intros x Hx Hwf fuel rest Hfuel;
    simpl in Hwf; apply andb_prop in Hwf as [Hwx Hwf];
    (destruct fuel as [|fuel]; [simpl in Hfuel; lia|]);
    simpl in Hfuel; simpl parse_elements.
  - rewrite (Hx Hwx) by (try lia; repeat split). reflexivity.
  - rewrite (Hx Hwx) by (try lia; repeat split).
    simpl. rewrite <- List.app_assoc, (IH y Hy Hwf) by (simpl; lia). reflexivity.
Qed.

Lemma members_read_back ps :
  Forall (fun p => reads_back (snd p)) ps ->
  forall p, reads_back (snd p) ->
  forallb (fun p => lossless (snd p)) (p :: ps) = true ->
  forall fuel rest,
    (fold_right (fun p h => S (Nat.max (height (snd p)) h)) O (p :: ps) <= fuel)%nat ->
    parse_members fuel
      ("034"%char :: quote_chars (fst p) ++ "034"%char :: ":"%char
         :: print_value (snd p) ++ print_rest "}" print_member ps ++ rest)
    = Some (p :: ps, rest).
Proof.
  induction 1 as [|q qs Hq Hqs IH]; intros [k v] Hv Hwf fuel rest Hfuel;
    simpl in Hwf; apply andb_prop in Hwf as [Hwv Hwf];
    (destruct fuel as [|fuel]; [simpl in Hfuel; lia|]);
    simpl in Hfuel, Hv; simpl; rewrite parse_quote_chars; simpl.
  - rewrite (Hv Hwv) by (try lia; repeat split). reflexivity.
  - rewrite (Hv Hwv) by (try lia; repeat split).
    simpl. rewrite <- ?List.app_assoc. simpl.
    rewrite (IH q Hq Hwf) by (simpl; lia). reflexivity.
Qed.

Theorem parse_print v : reads_back v.
Proof.
  induction v as [| b | n | s | xs IH | ps IH] using value_ind;
    intros Hwf fuel rest Hfuel Hstop;
    (destruct fuel as [|fuel]; [simpl in Hfuel; lia|]).
  - reflexivity.
  - destruct b; reflexivity.
  - change (print_value (VNum n)) with (json_number n). rewrite (json_number_ok n Hwf).
    apply parse_value_number. now apply parse_number_chars.
  - simpl. rewrite <- List.app_assoc. simpl. now rewrite parse_quote_chars.
  - destruct xs as [|x xs]; [reflexivity|].
    inversion IH as [|? ? Hx Hxs]; subst. simpl in Hwf, Hfuel.
    assert (Hstart : value_start (print_value x ++ print_rest "]" print_value xs ++ rest)).
    { apply print_value_start. now apply andb_prop in Hwf as [? _]. }
    simpl. rewrite <- List.app_assoc, (skip_ws_start _ Hstart).
    destruct (print_value x ++ print_rest "]" print_value xs ++ rest)
      as [|c r] eqn:E; [destruct Hstart|].
    destruct Hstart as (_ & -> & _). rewrite <- E.
    rewrite (elements_read_back xs Hxs x Hx) by (simpl; try assumption; lia).
    reflexivity.
  - destruct ps as [|p ps]; [reflexivity|].
    inversion IH as [|? ? Hp Hps]; subst. simpl in Hwf, Hfuel.
    apply andb_prop in Hwf as [Hkeys Hwf].
    change (print_value (VObj (p :: ps)))
      with ("{"%char :: quote (fst p) ++ ":"%char :: print_value (snd p)
              ++ print_rest "}" print_member ps).
    unfold quote. simpl. rewrite <- !List.app_assoc. simpl.
    rewrite <- !List.app_assoc.
    rewrite (members_read_back ps Hps p Hp) by (simpl; try assumption; lia).
    now rewrite build_object_id.
Qed.


(** ** The fuel of [JSON_parse] is enough: no answer depends on it *)

Lemma prepend_some bs o k r :
  prepend bs o = Some (k, r) -> exists k', o = Some (k', r).
Proof.
  destruct o as [[k' r']|]; simpl; [|discriminate].
  intros H; inversion H; subst. now exists k'.
Qed.

Lemma parse_chars_consumes n :
  forall s k r,
    (length s <= n)%nat -> parse_chars s = Some (k, r) -> (length r < length s)%nat.
Proof.
  induction n as [|n IH]; intros s k r Hn H.
  - destruct s; [discriminate | simpl in Hn; lia].
  - destruct s as [|c s]; [discriminate|]. simpl in H, Hn.
    repeat (match type of H with
            | context [if ?b then _ else _] => destruct b
            | context [match ?x with _ => _ end] => destruct x
            end; try discriminate);
      try (inversion H; subst; simpl; lia);
      apply prepend_some in H as [k' H]; apply IH in H; simpl in *; lia.
Qed.

Lemma expect_consumes {A} kw : forall s (a a' : A) r,
  expect kw s a = Some (a', r) -> (length r <= length s)%nat.
Proof.
  induction kw as [|k kw IH]; simpl; intros s a a' r H.
  - inversion H; subst; lia.
  - destruct s as [|c s]; [discriminate|].
    destruct (Ascii.eqb c k); [|discriminate].
    apply IH in H. simpl. lia.
Qed.

Lemma read_number_consumes s n r :
  read_number s = Some (n, r) -> (length r < length s)%nat.
Proof.
  unfold read_number.
  destruct (read_sign s) as [neg s1] eqn:Es.
  destruct (read_digits s1) as [i s2] eqn:Ei.
  destruct (Decimal.uint_beq (Decimal.unorm i) i) eqn:Eu; [|discriminate].
  destruct (read_fraction s2) as [[f s3]|] eqn:Ef; [|discriminate].
  destruct (read_exponent s3) as [[e s4]|] eqn:Ee; [|discriminate].
  intros H; inversion H; subst.
  assert (H1 : (length s1 <= length s)%nat).
  { unfold read_sign in Es. destruct s as [|c s]; [inversion Es; subst; simpl; lia|].
    destruct (Ascii.eqb c "-"); inversion Es; subst; simpl; lia. }
  assert (H2 : (length s2 < length s1)%nat).
  { apply read_digits_length in Ei.
    destruct i; [discriminate| simpl in Ei; lia ..]. }
  assert (H3 : (length s3 <= length s2)%nat).
  { unfold read_fraction in Ef. destruct s2 as [|c s2]; [inversion Ef; subst; simpl; lia|].
    destruct (Ascii.eqb c "."); [|inversion Ef; subst; simpl; lia].
    destruct (read_digits s2) as [d r'] eqn:Ed. apply read_digits_length in Ed.
    destruct d; inversion Ef; subst; simpl in *; lia. }
  assert (H4 : (length r <= length s3)%nat).
  { unfold read_exponent in Ee. destruct s3 as [|c s3]; [inversion Ee; subst; simpl; lia|].
    destruct (Ascii.eqb c "e" || Ascii.eqb c "E"); [|inversion Ee; subst; simpl; lia].
    destruct (match s3 with
              | [] => (false, [])
              | x :: r' =>
                  if Ascii.eqb x "-" then (true, r')
                  else if Ascii.eqb x "+" then (false, r') else (false, s3)
              end) as [ng r1] eqn:Er.
    assert (length r1 <= length s3)%nat.
    { destruct s3 as [|x s3]; [inversion Er; subst; simpl; lia|].
      destruct (Ascii.eqb x "-"); [inversion Er; subst; simpl; lia|].
      destruct (Ascii.eqb x "+"); inversion Er; subst; simpl; lia. }
    destruct (read_digits r1) as [d r2] eqn:Ed. apply read_digits_length in Ed.
    destruct d; inversion Ee; subst; simpl in *; lia. }
  lia.
Qed.

Lemma parse_number_consumes s n r :
  parse_number s = Some (n, r) -> (length r < length s)%nat.
Proof.
  intros H. destruct (parse_number_read _ _ _ H) as [x Hx].
  exact (read_number_consumes _ _ _ Hx).
Qed.

Lemma skip_ws_tail s c r : skip_ws s = c :: r -> (length r < length s)%nat.
Proof. intros H. pose proof (skip_ws_length s) as L. rewrite H in L. simpl in L. lia. Qed.

Lemma parse_consumes fuel :
  (forall s v r, parse_value fuel s = Some (v, r) -> (length r < length s)%nat)
  /\ (forall s vs r, parse_elements fuel s = Some (vs, r) -> (length r < length s)%nat)
  /\ (forall s ms r, parse_members fuel s = Some (ms, r) -> (length r < length s)%nat).
Proof.
  induction fuel as [|fuel (IHv & IHe & IHm)]; [repeat split; discriminate|].
  repeat split; intros s x r H;
    cbn [parse_value parse_elements parse_members] in H.
  - destruct (skip_ws s) as [|c t] eqn:E; [discriminate|].
    apply skip_ws_tail in E.
    destruct (Ascii.eqb c "n"); [apply expect_consumes in H; lia|].
    destruct (Ascii.eqb c "t"); [apply expect_consumes in H; lia|].
    destruct (Ascii.eqb c "f"); [apply expect_consumes in H; lia|].
    destruct (Ascii.eqb c "034").
    { destruct (parse_chars t) as [[str r']|] eqn:Ec; [|discriminate].
      apply (parse_chars_consumes _ _ _ _ (le_n _)) in Ec. inversion H; subst. lia. }
    destruct (Ascii.eqb c "[").
    { destruct (skip_ws t) as [|c' r'] eqn:E'; [discriminate|].
      apply skip_ws_tail in E'.
      destruct (Ascii.eqb c' "]"); [inversion H; subst; lia|].
      destruct (parse_elements fuel t) as [[vs r'']|] eqn:Ee; [|discriminate].
      apply IHe in Ee. inversion H; subst. lia. }
    destruct (Ascii.eqb c "{").
    { destruct (skip_ws t) as [|c' r'] eqn:E'; [discriminate|].
      apply skip_ws_tail in E'.
      destruct (Ascii.eqb c' "}"); [inversion H; subst; lia|].
      destruct (parse_members fuel t) as [[ms r'']|] eqn:Em; [|discriminate].
      apply IHm in Em. inversion H; subst. lia. }
    destruct (parse_number (c :: t)) as [[n r']|] eqn:En; [|discriminate].
    apply parse_number_consumes in En. inversion H; subst. simpl in En. lia.
  - destruct (parse_value fuel s) as [[v r1]|] eqn:Ev; [|discriminate].
    apply IHv in Ev.
    destruct (skip_ws r1) as [|c r2] eqn:E; [discriminate|]. apply skip_ws_tail in E.
    destruct (Ascii.eqb c ",").
    { destruct (parse_elements fuel r2) as [[vs r3]|] eqn:Ee; [|discriminate].
      apply IHe in Ee. inversion H; subst. lia. }
    destruct (Ascii.eqb c "]"); inversion H; subst. lia.
  - destruct (skip_ws s) as [|q t] eqn:E; [discriminate|]. apply skip_ws_tail in E.
    destruct (Ascii.eqb q "034"); [|discriminate].
    destruct (parse_chars t) as [[k r1]|] eqn:Ec; [|discriminate].
    apply (parse_chars_consumes _ _ _ _ (le_n _)) in Ec.
    destruct (skip_ws r1) as [|c r2] eqn:E1; [discriminate|]. apply skip_ws_tail in E1.
    destruct (Ascii.eqb c ":"); [|discriminate].
    destruct (parse_value fuel r2) as [[v r3]|] eqn:Ev; [|discriminate].
    apply IHv in Ev.
    destruct (skip_ws r3) as [|c' r4] eqn:E3; [discriminate|]. apply skip_ws_tail in E3.
    destruct (Ascii.eqb c' ",").
    { destruct (parse_members fuel r4) as [[ms r5]|] eqn:Em; [|discriminate].
      apply IHm in Em. inversion H; subst. lia. }
    destruct (Ascii.eqb c' "}"); inversion H; subst. lia.
Qed.

Lemma parse_fuel_irrelevant f1 : forall f2,
  (forall s, (2 * length s < f1)%nat -> (2 * length s < f2)%nat ->
             parse_value f1 s = parse_value f2 s)
  /\ (forall s, (2 * length s + 1 < f1)%nat -> (2 * length s + 1 < f2)%nat ->
                parse_elements f1 s = parse_elements f2 s)
  /\ (forall s, (2 * length s + 1 < f1)%nat -> (2 * length s + 1 < f2)%nat ->
                parse_members f1 s = parse_members f2 s).
Proof.
  induction f1 as [|f1 IH]; intros f2; [repeat split; intros; lia|].
  destruct f2 as [|f2]; [repeat split; intros; lia|].
  destruct (IH f2) as (IHv & IHe & IHm).
  destruct (parse_consumes f2) as (Cv & _ & _).
  repeat split; intros s H1 H2; simpl.
  - destruct (skip_ws s) as [|c t] eqn:E; [reflexivity|]. apply skip_ws_tail in E.
    rewrite (IHe t), (IHm t) by lia. reflexivity.
  - rewrite (IHv s) by lia.
    destruct (parse_value f2 s) as [[v r1]|] eqn:Ev; [|reflexivity]. apply Cv in Ev.
    destruct (skip_ws r1) as [|c r2] eqn:E; [reflexivity|]. apply skip_ws_tail in E.
    rewrite (IHe r2) by lia. reflexivity.
  - destruct (skip_ws s) as [|q t] eqn:E; [reflexivity|]. apply skip_ws_tail in E.
    destruct (Ascii.eqb q "034"); [|reflexivity].
    destruct (parse_chars t) as [[k r1]|] eqn:Ec; [|reflexivity].
    apply (parse_chars_consumes _ _ _ _ (le_n _)) in Ec.
    destruct (skip_ws r1) as [|c r2] eqn:E1; [reflexivity|]. apply skip_ws_tail in E1.
    destruct (Ascii.eqb c ":"); [|reflexivity].
    rewrite (IHv r2) by lia.
    destruct (parse_value f2 r2) as [[v r3]|] eqn:Ev; [|reflexivity]. apply Cv in Ev.
    destruct (skip_ws r3) as [|c' r4] eqn:E3; [reflexivity|]. apply skip_ws_tail in E3.
    rewrite (IHm r4) by lia. reflexivity.
Qed.

(** Whatever fuel above the bound is given, the answer is that of
    [JSON_parse]; so its [None] is a syntax error, never exhaustion. *)
Theorem parse_value_fuel fuel s :
  (2 * length s < fuel)%nat ->
  parse_value fuel s = parse_value (S (2 * length s)) s.
Proof. intros H. apply parse_fuel_irrelevant; lia. Qed.

(** The storage round trip of a value that JSON text keeps as it is. *)
Theorem JSON_parse_stringify_lossless v :
  lossless v = true -> JSON_parse (JSON_stringify v) = Some v.
Proof.
  intros Hwf. unfold JSON_parse, JSON_stringify. rewrite chars_text.
  rewrite <- (parse_value_fuel (S (2 * length (print_value v)) + height v))
    by lia.
  rewrite <- (List.app_nil_r (print_value v)) at 2.
  rewrite (parse_print v Hwf) by (try lia; exact I).
  reflexivity.
Qed.

(** *** What JSON text keeps of a value *)

Lemma has_key_kept k ps :
  has_key k (map (fun p => (fst p, kept (snd p))) ps) = has_key k ps.
Proof.
  induction ps as [|[k' v] ps IH]; [reflexivity|]. simpl. now rewrite IH.
Qed.

Lemma forallb_kept (f : string -> bool) ps :
  forallb (fun p => f (fst p)) (map (fun p => (fst p, kept (snd p))) ps)
  = forallb (fun p => f (fst p)) ps.
Proof. induction ps as [|p ps IH]; [reflexivity|]. simpl. now rewrite IH. Qed.

Lemma keys_ok_kept ps : forall acc,
  keys_ok (map (fun p => (fst p, kept (snd p))) acc)
    (map (fun p => (fst p, kept (snd p))) ps)
  = keys_ok acc ps.
Proof.
  induction ps as [|m ps IH]; intros acc; [reflexivity|]. simpl.
  rewrite has_key_kept, (forallb_kept (fun k => negb (key_before (fst m) k))).
  change [(fst m, kept (snd m))] with (map (fun p => (fst p, kept (snd p))) [m]).
  now rewrite <- map_app, IH.
Qed.

Lemma lossless_kept v : well_formed v = true -> lossless (kept v) = true.
Proof.
  induction v as [| b | n | s | xs IH | ps IH] using value_ind; intros H;
    try reflexivity.
  - destruct n; try reflexivity; exact H.
  - simpl in *. induction IH as [|x xs Hx Hxs IHxs]; [reflexivity|].
    simpl in *. apply andb_prop in H as [H1 H2].
    now rewrite (Hx H1), (IHxs H2).
  - simpl in *. apply andb_prop in H as [Hk H].
    pose proof (keys_ok_kept ps []) as Hk'. simpl in Hk'. rewrite Hk', Hk. simpl.
    clear Hk Hk'. induction IH as [|p ps Hp Hps IHps]; [reflexivity|].
    simpl in *. apply andb_prop in H as [H1 H2].
    now rewrite (Hp H1), (IHps H2).
Qed.

Lemma print_rest_ext {A} (close : ascii) (f g : A -> list ascii) (h : A -> A) xs :
  Forall (fun x => f (h x) = g x) xs ->
  print_rest close f (map h xs) = print_rest close g xs.
Proof.
  induction 1 as [|x xs Hx Hxs IH]; [reflexivity|].
  cbn [map]. change (print_rest close f (h x :: map h xs))
    with (","%char :: f (h x) ++ print_rest close f (map h xs)).
  now rewrite Hx, IH.
Qed.

Lemma print_kept v : print_value (kept v) = print_value v.
Proof.
  induction v as [| b | n | s | xs IH | ps IH] using value_ind; try reflexivity.
  - destruct n as [[|p|p]|m k| |[]]; reflexivity.
  - destruct IH as [|x xs Hx Hxs]; [reflexivity|].
    change (print_value (kept (VArr (x :: xs))))
      with ("["%char :: print_value (kept x) ++ print_rest "]" print_value (map kept xs)).
    rewrite Hx, (print_rest_ext "]" print_value print_value kept xs Hxs). reflexivity.
  - destruct IH as [|p ps Hp Hps]; [reflexivity|].
    change (print_value (kept (VObj (p :: ps))))
      with ("{"%char :: quote (fst p) ++ ":"%char :: print_value (kept (snd p))
              ++ print_rest "}" print_member (map (fun p => (fst p, kept (snd p))) ps)).
    rewrite Hp, (print_rest_ext "}" print_member print_member
                   (fun p => (fst p, kept (snd p))) ps).
    + reflexivity.
    + apply Forall_forall. intros q Hq. unfold print_member. cbn [fst snd].
      rewrite Forall_forall in Hps. now rewrite (Hps q Hq).
Qed.

Lemma kept_lossless v : lossless v = true -> kept v = v.
Proof.
  induction v as [| b | n | s | xs IH | ps IH] using value_ind; intros H;
    try reflexivity.
  - destruct n; try reflexivity; discriminate.
  - simpl in *. f_equal. induction IH as [|x xs Hx Hxs IHxs]; [reflexivity|].
    simpl in *. apply andb_prop in H as [H1 H2].
    now rewrite (Hx H1), (IHxs H2).
  - simpl in *. apply andb_prop in H as [_ H]. f_equal.
    induction IH as [|[k v] ps Hp Hps IHps]; [reflexivity|].
    simpl in *. apply andb_prop in H as [H1 H2].
    now rewrite (Hp H1), (IHps H2).
Qed.

Lemma own_property_kept k ps :
  own_property k (map (fun p => (fst p, kept (snd p))) ps)
  = option_map kept (own_property k ps).
Proof.
  induction ps as [|[k' v] ps IH]; [reflexivity|]. simpl.
  destruct (String.eqb k k'); [reflexivity|exact IH].
Qed.

Lemma get_prop_kept v k : get_prop (kept v) k = option_map kept (get_prop v k).
Proof.
  destruct v as [| b | n | s | xs | ps]; try reflexivity.
  - destruct n as [z|m j| |b]; reflexivity.
  - apply own_property_kept.
Qed.

(** The storage round trip: [JSON.parse] reads back what [JSON.stringify]
    wrote, which is the value but for the numbers JSON text cannot keep. *)
Theorem JSON_parse_stringify v :
  well_formed v = true -> JSON_parse (JSON_stringify v) = Some (kept v).
Proof.
  intros Hwf. unfold JSON_stringify. rewrite <- print_kept.
  apply JSON_parse_stringify_lossless. now apply lossless_kept.
Qed.

(** ** Percent-encoding *)

Lemma decode_encode_char c t :
  decode_chars ((if unreserved c then [c] else percent c) ++ t)
  = match decode_chars t with Some l => Some (c :: l) | None => None end.
Proof. destruct c as [[] [] [] [] [] [] [] []]; reflexivity. Qed.

Lemma decode_encode_chars s : decode_chars (encode_chars s) = Some s.
Proof.
  induction s as [|c s IH]; [reflexivity|].
  simpl encode_chars. now rewrite decode_encode_char, IH.
Qed.

Lemma percent_decode_encode q : percent_decode (encodeURIComponent q) = Some q.
Proof.
  unfold percent_decode, encodeURIComponent.
  now rewrite chars_text, decode_encode_chars, text_chars.
Qed.

Lemma encode_char_spec c :
  (if unreserved c then [c] else percent c)
  = (if is_unreserved c then [c]
     else ["%"%char; hex_digit (ord c / 16); hex_digit (ord c mod 16)]).
Proof. destruct c as [[] [] [] [] [] [] [] []]; reflexivity. Qed.

(** [encodeURIComponent] is the percent-encoding of the specification. *)
Lemma encodeURIComponent_spec q : encodeURIComponent q = percent_encoded q.
Proof.
  unfold encodeURIComponent, percent_encoded. f_equal.
  induction (chars q) as [|c l IH]; [reflexivity|].
  simpl. now rewrite encode_char_spec, IH.
Qed.

Lemma encode_chars_safe s : forallb url_safe (encode_chars s) = true.
Proof.
  induction s as [|c s IH]; [reflexivity|].
  simpl encode_chars. rewrite forallb_app, IH, andb_true_r.
  destruct c as [[] [] [] [] [] [] [] []]; reflexivity.
Qed.

(** ** The request pipeline *)

Section Pipeline.

Variable server : list request -> request -> option response.

Lemma get_prop_truthy v k x : get_prop v k = Some x -> truthy v = true.
Proof. destruct v; simpl; try discriminate; reflexivity. Qed.

Lemma is_empty_true s : is_empty s = true -> s = EmptyString.
Proof. destruct s; [reflexivity|discriminate]. Qed.

(** The interceptor only reads. *)
Lemma interceptor_world cfg w r w' : interceptor cfg w = (r, w') -> w' = w.
Proof.
  unfold interceptor, bind, getItem, ret, throw.
  destruct (storage w !! "user"%string) as [s|]; [|now intros [= _ <-]].
  destruct (is_empty s); [now intros [= _ <-]|].
  destruct (JSON_parse s) as [user|]; [|now intros [= _ <-]].
  destruct (truthy user && truthy_opt (get_prop user "token")); [|now intros [= _ <-]].
  destruct (get_prop user "token") as [token|]; [|now intros [= _ <-]].
  destruct (ToString token); now intros [= _ <-].
Qed.

(** What the interceptor does when the stored record can be read. *)
Lemma interceptor_readable cfg w :
  session_readable (storage w) = true ->
  interceptor cfg w
  = (Ok match session_token (storage w) with
        | Some t => set_header "Authorization" ("Bearer " +:+ t) cfg
        | None => cfg
        end, w).
Proof.
  unfold session_readable, session_token, interceptor, bind, getItem, ret, throw.
  destruct (storage w !! "user"%string) as [s|]; [|reflexivity].
  destruct (is_empty s) eqn:Es.
  { apply is_empty_true in Es. subst s. reflexivity. }
  simpl. destruct (JSON_parse s) as [user|]; [|discriminate].
  destruct (get_prop user "token") as [token|] eqn:Et; simpl.
  - rewrite (get_prop_truthy _ _ _ Et). simpl.
    destruct (truthy token); simpl; [|reflexivity].
    destruct (ToString token); [reflexivity|].
    intros H. apply bool_decide_eq_true in H. now destruct H.
  - now rewrite andb_false_r.
Qed.

(** And when it cannot: the request is not made. *)
Lemma interceptor_unreadable cfg w :
  session_readable (storage w) = false ->
  exists e, interceptor cfg w = (Throw e, w).
Proof.
  unfold session_readable, interceptor, bind, getItem, ret, throw.
  destruct (storage w !! "user"%string) as [s|]; [|discriminate].
  destruct (is_empty s); [discriminate|]. simpl.
  destruct (JSON_parse s) as [user|]; [|now exists SyntaxError].
  destruct (get_prop user "token") as [token|] eqn:Et; [|discriminate].
  rewrite (get_prop_truthy _ _ _ Et). simpl. intros H.
  apply orb_false_iff in H as [H1 H2]. apply negb_false_iff in H1. rewrite H1.
  destruct (ToString token) as [t|]; [|now exists TypeError].
  apply bool_decide_eq_false in H2. destruct H2. now exists t.
Qed.

Lemma dispatch_world cfg w :
  snd (dispatch server cfg w) = {| storage := storage w; sent := sent w ++ [cfg] |}.
Proof.
  unfold dispatch. destruct (server (sent w) cfg) as [r|]; [|reflexivity].
  destruct (validateStatus (status r)); reflexivity.
Qed.

Lemma api_request_pipeline cfg w :
  pipeline server cfg w (fst (api_request server cfg w)) (snd (api_request server cfg w)).
Proof.
  unfold api_request, bind.
  destruct (interceptor cfg w) as [[cfg'|e] w'] eqn:E;
    pose proof (interceptor_world _ _ _ _ E); subst w'; simpl.
  - unfold dispatch. destruct (server (sent w) cfg') as [r|] eqn:Es.
    + generalize (answered server cfg w cfg' r E Es).
      destruct (validateStatus (status r)); exact (fun H => H).
    + exact (no_response server cfg w cfg' E Es).
  - exact (not_sent server cfg w e E).
Qed.

Lemma api_request_storage cfg w :
  storage (snd (api_request server cfg w)) = storage w.
Proof. destruct (api_request_pipeline cfg w); reflexivity. Qed.

End Pipeline.

(** ** The operations of the service *)

Section Operations.

Variable server : list request -> request -> option response.

Lemma login_answered c w r w' :
  api_post server "/auth/login" c w = (Ok r, w') ->
  login server c w
  = (Ok (data r),
     match get_prop (data r) "user" with
     | Some user => if truthy user then persist user w' else w'
     | None => w'
     end).
Proof.
  intros H. unfold login, try_catch, bind. rewrite H.
  destruct (get_prop (data r) "user") as [user|] eqn:E; simpl.
  - rewrite (get_prop_truthy _ _ _ E). simpl.
    destruct (truthy user); reflexivity.
  - now rewrite andb_false_r.
Qed.

Lemma login_rejected c w e w' :
  api_post server "/auth/login" c w = (Throw e, w') ->
  login server c w = (Throw (surfaced e "Login failed"), w').
Proof. intros H. unfold login, try_catch, bind. now rewrite H. Qed.

(** Every operation that talks to the server is one request, whose
    rejection surfaces as the body of the response or as the fallback of
    the operation. *)
Lemma run_rejected op w e w' :
  api_request server (first_request op) w = (Throw e, w') ->
  run server op w = (Throw (surfaced e (fallback op)), w').
Proof.
  intros H. destruct op; simpl in *.
  - now apply login_rejected.
  - unfold register, api_post, try_catch, bind. now rewrite H.
  - unfold getWeather, api_get, try_catch, bind. now rewrite H.
Qed.

Lemma run_answered op w r w' :
  api_request server (first_request op) w = (Ok r, w') ->
  exists w'', run server op w = (Ok (data r), w'') /\ sent w'' = sent w'.
Proof.
  intros H. destruct op; simpl in *.
  - rewrite (login_answered _ _ _ _ H).
    eexists; split; [reflexivity|].
    destruct (get_prop (data r) "user") as [u|]; [destruct (truthy u)|]; reflexivity.
  - unfold register, api_post, try_catch, bind. rewrite H. now eexists.
  - unfold getWeather, api_get, try_catch, bind. rewrite H. now eexists.
Qed.

Lemma getStoredUser_world w : snd (getStoredUser w) = w.
Proof.
  unfold getStoredUser, bind, getItem, ret, throw.
  destruct (storage w !! "user"%string) as [s|]; [|reflexivity].
  destruct (is_empty s); [reflexivity|].
  destruct (JSON_parse s); reflexivity.
Qed.

Lemma run_storage op w :
  match op with OpLogin _ => True | _ => storage (snd (run server op w)) = storage w end.
Proof.
  destruct op as [c|u|q]; [exact I| |]; simpl.
  - pose proof (api_request_storage server (defaults POST "/auth/register" (Some u)) w) as H.
    unfold register, api_post, try_catch, bind.
    destruct (api_request _ _ w) as [[r|e] w']; exact H.
  - pose proof (api_request_storage server
                  (defaults GET ("/weather/get?q=" +:+ encodeURIComponent q) None) w) as H.
    unfold getWeather, api_get, try_catch, bind.
    destruct (api_request _ _ w) as [[r|e] w']; exact H.
Qed.

End Operations.

(** ** The claims of the specification *)

Section Claims.

Variable server : list request -> request -> option response.

Lemma api_request_answered cfg w cfg' r :
  interceptor cfg w = (Ok cfg', w) ->
  server (sent w) cfg' = Some r ->
  api_request server cfg w
  = (if validateStatus (status r) then Ok r else Throw (AxiosError (Some r)),
     {| storage := storage w; sent := sent w ++ [cfg'] |}).
Proof.
  intros Hi Hs. unfold api_request, bind, dispatch. rewrite Hi, Hs.
  destruct (validateStatus (status r)); reflexivity.
Qed.

Lemma api_request_unanswered cfg w cfg' :
  interceptor cfg w = (Ok cfg', w) ->
  server (sent w) cfg' = None ->
  api_request server cfg w
  = (Throw (AxiosError None), {| storage := storage w; sent := sent w ++ [cfg'] |}).
Proof. intros Hi Hs. unfold api_request, bind, dispatch. now rewrite Hi, Hs. Qed.

Lemma api_request_not_sent cfg w e :
  interceptor cfg w = (Throw e, w) ->
  api_request server cfg w = (Throw e, w).
Proof. intros Hi. unfold api_request, bind. now rewrite Hi. Qed.

Lemma interceptor_error_has_no_response cfg w e :
  interceptor cfg w = (Throw e, w) -> error_response_data e = None.
Proof.
  unfold interceptor, bind, getItem, ret, throw.
  destruct (storage w !! "user"%string) as [s|]; [|discriminate].
  destruct (is_empty s); [discriminate|].
  destruct (JSON_parse s) as [user|]; [|now intros [= <-]].
  destruct (truthy user && truthy_opt (get_prop user "token")); [|discriminate].
  destruct (get_prop user "token") as [token|]; [|discriminate].
  destruct (ToString token); [discriminate|now intros [= <-]].
Qed.

Lemma getStoredUser_persist user w :
  well_formed user = true ->
  getStoredUser (persist user w) = (Ok (kept user), persist user w).
Proof.
  intros Hwf. pose proof (JSON_parse_stringify user Hwf) as Hp.
  unfold getStoredUser, bind, getItem, ret. simpl.
  rewrite lookup_insert_eq.
  destruct (is_empty (JSON_stringify user)) eqn:E.
  - apply is_empty_true in E. rewrite E in Hp. discriminate.
  - now rewrite Hp.
Qed.



(** C1 (amended).  [getStoredUser] returns null when no record is stored or
    the stored text is empty, and the parsed value when the stored text is
    JSON; on any other stored text it throws the [SyntaxError] of
    [JSON.parse]: malformed stored data is not treated as absent.  In every
    case the storage is left as it was and nothing is sent. *)
Theorem getStoredUser_reads w :
  (storage w !! "user"%string = None -> getStoredUser w = (Ok VNull, w))
  /\ (storage w !! "user"%string = Some EmptyString -> getStoredUser w = (Ok VNull, w))
  /\ (forall s v, storage w !! "user"%string = Some s -> JSON_parse s = Some v ->
                  getStoredUser w = (Ok v, w))
  /\ (forall s, storage w !! "user"%string = Some s -> s <> EmptyString ->
                JSON_parse s = None ->
                getStoredUser w = (Throw (Err SyntaxError), w)).
Proof.
  unfold getStoredUser, bind, getItem, ret, throw.
  repeat split.
  - now intros ->.
  - now intros ->.
  - intros s v -> Hp. destruct s; [discriminate|]. simpl is_empty. now rewrite Hp.
  - intros s -> Hs Hp. destruct s; [congruence|]. simpl is_empty. now rewrite Hp.
Qed.

(** C2 (amended).  When the stored record can be read (nothing stored, an
    empty text, or JSON text whose token has a text), every request of the
    client goes out, and it carries [Authorization: Bearer <token>] exactly
    when the stored record is an object with a truthy [token]; in
    particular, with nothing stored the request goes out unchanged. *)
Theorem bearer_iff_token cfg w :
  req_headers cfg !! "Authorization"%string = None ->
  session_readable (storage w) = true ->
  exists cfg',
    interceptor cfg w = (Ok cfg', w)
    /\ sent (snd (api_request server cfg w)) = sent w ++ [cfg']
    /\ req_headers cfg' !! "Authorization"%string
       = (fun t => "Bearer " +:+ t) <$> session_token (storage w)
    /\ (storage w !! "user"%string = None -> cfg' = cfg).
Proof.
  intros Hh Hr. pose proof (interceptor_readable cfg w Hr) as Hi.
  eexists. split; [exact Hi|]. split; [|split].
  - unfold api_request, bind. rewrite Hi. now rewrite dispatch_world.
  - destruct (session_token (storage w)) as [t|]; simpl; [apply lookup_insert_eq|exact Hh].
  - intros Hn. unfold session_token. now rewrite Hn.
Qed.

(** C3 (amended).  [login] fails whenever its request is rejected: with
    the body of a response outside 2xx when that body is truthy, else with
    [{message: 'Login failed'}] (also when there is no response, or the
    request could not be made).  On a 2xx response it returns the whole
    body of the response, whatever it is, and persists [body.user] as JSON
    text when that is truthy; otherwise it persists nothing. *)
Theorem login_outcomes c w :
  (forall e, interceptor (defaults POST "/auth/login" (Some c)) w = (Throw e, w) ->
             login server c w = (Throw (Val (message "Login failed")), w))
  /\ (forall cfg',
        interceptor (defaults POST "/auth/login" (Some c)) w = (Ok cfg', w) ->
        match server (sent w) cfg' with
        | None =>
            login server c w
            = (Throw (Val (message "Login failed")),
               {| storage := storage w; sent := sent w ++ [cfg'] |})
        | Some r =>
            if validateStatus (status r) then
              login server c w
              = (Ok (data r),
                 match get_prop (data r) "user" with
                 | Some user =>
                     if truthy user
                     then persist user {| storage := storage w; sent := sent w ++ [cfg'] |}
                     else {| storage := storage w; sent := sent w ++ [cfg'] |}
                 | None => {| storage := storage w; sent := sent w ++ [cfg'] |}
                 end)
            else
              login server c w
              = (Throw (Val (if truthy (data r) then data r else message "Login failed")),
                 {| storage := storage w; sent := sent w ++ [cfg'] |})
        end).
Proof.
  split.
  - intros e Hi. rewrite (login_rejected server c w e w).
    + unfold surfaced. now rewrite (interceptor_error_has_no_response _ _ _ Hi).
    + now apply api_request_not_sent.
  - intros cfg' Hi. destruct (server (sent w) cfg') as [r|] eqn:Hs.
    + pose proof (api_request_answered _ _ _ _ Hi Hs) as H.
      destruct (validateStatus (status r)).
      * now apply login_answered.
      * now rewrite (login_rejected server c w _ _ H).
    + now rewrite (login_rejected server c w _ _ (api_request_unanswered _ _ _ Hi Hs)).
Qed.

(** C5.  Whatever was stored, [logout] succeeds without a request, and a
    [getStoredUser] after it returns null. *)
Theorem logout_then_getStoredUser w :
  exists w',
    logout w = (Ok tt, w')
    /\ sent w' = sent w
    /\ storage w' = delete "user"%string (storage w)
    /\ getStoredUser w' = (Ok VNull, w').
Proof.
  eexists. split; [reflexivity|]. repeat split.
  unfold getStoredUser, bind, getItem, ret. simpl.
  now rewrite lookup_delete_eq.
Qed.

(** C6 (amended).  When the server answers the login request with a 2xx
    response whose body has a user object, [login] followed by
    [getStoredUser] returns that user object as JSON text keeps it: the
    fields match, except that a number that is not finite has become null
    and negative zero has become 0.  A user object without such a number
    is returned as it is. *)
Theorem login_then_getStoredUser c w cfg' r ps :
  interceptor (defaults POST "/auth/login" (Some c)) w = (Ok cfg', w) ->
  server (sent w) cfg' = Some r ->
  validateStatus (status r) = true ->
  get_prop (data r) "user" = Some (VObj ps) ->
  well_formed (VObj ps) = true ->
  exists w1,
    login server c w = (Ok (data r), w1)
    /\ getStoredUser w1 = (Ok (kept (VObj ps)), w1)
    /\ (lossless (VObj ps) = true -> getStoredUser w1 = (Ok (VObj ps), w1)).
Proof.
  intros Hi Hs Hv Hu Hwf.
  pose proof (api_request_answered _ _ _ _ Hi Hs) as H. rewrite Hv in H.
  apply login_answered in H. rewrite Hu in H. simpl in H.
  eexists. split; [exact H|].
  rewrite (getStoredUser_persist _ _ Hwf). split; [reflexivity|].
  intros Hl. now rewrite (kept_lossless _ Hl).
Qed.

(** C7.  [register], [getWeather] and [getStoredUser] leave the storage as
    it was; of the members of the service, only [login] and [logout] can
    change it. *)
Theorem only_login_logout_persist :
  (forall u w, storage (snd (register server u w)) = storage w)
  /\ (forall q w, storage (snd (getWeather server q w)) = storage w)
  /\ (forall w, storage (snd (getStoredUser w)) = storage w)
  /\ (forall m arg w,
        m <> Login -> m <> Logout ->
        storage (snd (invoke server m arg w)) = storage w).
Proof.
  assert (Hr : forall u w, storage (snd (register server u w)) = storage w)
    by (intros u w; exact (run_storage server (OpRegister u) w)).
  assert (Hg : forall q w, storage (snd (getWeather server q w)) = storage w)
    by (intros q w; exact (run_storage server (OpGetWeather q) w)).
  assert (Hs : forall w, storage (snd (getStoredUser w)) = storage w)
    by (intros w; now rewrite getStoredUser_world).
  repeat split; try assumption.
  intros m arg w H1 H2. destruct m; cbn [invoke].
  - now destruct H1.
  - apply Hr.
  - now destruct H2.
  - apply Hs.
  - destruct (ToString arg); [apply Hg|reflexivity].
Qed.

(** C8.  A failure of [login], [register] or [getWeather] is thrown to
    the caller after at most one request: the thrown value is the body of
    the response outside 2xx, verbatim, when that body is truthy, and the
    fallback message of the operation otherwise.  And a result is only
    returned for a 2xx response, of which it is the body. *)
Theorem failures_surface op w :
  (forall t w', run server op w = (Throw t, w') ->
     (length (sent w') <= S (length (sent w)))%nat
     /\ ((exists cfg r,
            sent w' = sent w ++ [cfg] /\ server (sent w) cfg = Some r
            /\ validateStatus (status r) = false /\ truthy (data r) = true
            /\ t = Val (data r))
         \/ (t = Val (message (fallback op))
             /\ forall cfg r,
                  sent w' = sent w ++ [cfg] -> server (sent w) cfg = Some r ->
                  truthy (data r) = false)))
  /\ (forall v w', run server op w = (Ok v, w') ->
        exists cfg r,
          sent w' = sent w ++ [cfg] /\ server (sent w) cfg = Some r
          /\ validateStatus (status r) = true /\ v = data r).
Proof.
  pose proof (api_request_pipeline server (first_request op) w) as P.
  destruct (api_request server (first_request op) w) as [res w1] eqn:E.
  simpl in P. destruct P as [e Hi | cfg' Hi Hs | cfg' r Hi Hs].
  - rewrite (run_rejected server op w e w E). split; [|discriminate].
    intros t w' [= <- <-]. split; [lia|]. right. split.
    + unfold surfaced. now rewrite (interceptor_error_has_no_response _ _ _ Hi).
    + intros cfg r Hsent. exfalso.
      apply (f_equal (@length request)) in Hsent.
      rewrite length_app in Hsent. simpl in Hsent. lia.
  - rewrite (run_rejected server op w _ _ E). split; [|discriminate].
    intros t w' [= <- <-]. simpl. split; [rewrite length_app; simpl; lia|].
    right. split; [reflexivity|].
    intros cfg r Hsent Hr. apply app_inv_head in Hsent. injection Hsent as <-.
    congruence.
  - destruct (validateStatus (status r)) eqn:Hv.
    + destruct (run_answered server op w r _ E) as (w2 & Hrun & Hsent).
      rewrite Hrun. split; [discriminate|].
      intros v w' [= <- <-]. exists cfg', r. now rewrite Hsent.
    + rewrite (run_rejected server op w _ _ E). split; [|discriminate].
      intros t w' [= <- <-]. simpl. split; [rewrite length_app; simpl; lia|].
      unfold surfaced. simpl. destruct (truthy (data r)) eqn:Ht.
      * left. exists cfg', r. repeat split; assumption.
      * right. split; [reflexivity|].
        intros cfg r0 Hsent Hr. apply app_inv_head in Hsent. injection Hsent as <-.
        congruence.
Qed.

(** C9 (amended).  For every query without an unpaired surrogate: when
    the stored record can be read, [getWeather] makes one GET request to
    [/weather/get], without a body, whose [q] parameter is the query
    percent-encoded (every octet of its UTF-8 text other than an unreserved
    character written as [%XX], in upper case), so that only unreserved
    characters and escapes go out and the query is read back from them.
    When the stored record cannot be read, no request is made and
    [getWeather] fails with its fallback message. *)
Theorem getWeather_request q w :
  unpaired_surrogate (chars q) = false ->
  (session_readable (storage w) = true ->
   exists cfg,
     sent (snd (getWeather server q w)) = sent w ++ [cfg]
     /\ req_method cfg = GET
     /\ req_baseURL cfg = API_BASE_URL
     /\ req_url cfg = "/weather/get?q=" +:+ percent_encoded q
     /\ req_data cfg = None
     /\ forallb url_safe (chars (percent_encoded q)) = true
     /\ percent_decode (percent_encoded q) = Some q)
  /\ (session_readable (storage w) = false ->
      getWeather server q w = (Throw (Val (message "Failed to fetch weather")), w)).
Proof.
  intros _. split; intros Hr.
  - pose proof (interceptor_readable
                  (defaults GET ("/weather/get?q=" +:+ encodeURIComponent q) None) w Hr) as Hi.
    rewrite <- encodeURIComponent_spec.
    eexists. split; [|split; [|split; [|split; [|split; [|split]]]]].
    + unfold getWeather, api_get, api_request, try_catch, bind. rewrite Hi.
      pose proof (dispatch_world server
        match session_token (storage w) with
        | Some t => set_header "Authorization" ("Bearer " +:+ t)
                      (defaults GET ("/weather/get?q=" +:+ encodeURIComponent q) None)
        | None => defaults GET ("/weather/get?q=" +:+ encodeURIComponent q) None
        end w) as Hd.
      destruct (dispatch server _ w) as [[r|e] w']; simpl in *; now rewrite Hd.
    + destruct (session_token (storage w)); reflexivity.
    + destruct (session_token (storage w)); reflexivity.
    + destruct (session_token (storage w)); reflexivity.
    + destruct (session_token (storage w)); reflexivity.
    + unfold encodeURIComponent. rewrite chars_text. apply encode_chars_safe.
    + apply percent_decode_encode.
  - destruct (interceptor_unreadable
                (defaults GET ("/weather/get?q=" +:+ encodeURIComponent q) None) w Hr)
      as [e He].
    unfold getWeather, api_get, api_request, try_catch, bind. rewrite He.
    now rewrite (interceptor_error_has_no_response _ _ _ He).
Qed.

(** C10.  When the server answers the login request with a 2xx response
    whose body has no [user] property, [login] returns that body without
    an error and leaves the storage as it was. *)
Theorem login_without_user c w cfg' r :
  interceptor (defaults POST "/auth/login" (Some c)) w = (Ok cfg', w) ->
  server (sent w) cfg' = Some r ->
  validateStatus (status r) = true ->
  get_prop (data r) "user" = None ->
  login server c w = (Ok (data r), {| storage := storage w; sent := sent w ++ [cfg'] |}).
Proof.
  intros Hi Hs Hv Hu.
  pose proof (api_request_answered _ _ _ _ Hi Hs) as H. rewrite Hv in H.
  apply login_answered in H. now rewrite Hu in H.
Qed.

End Claims.

(** ** The hazard report *)

Lemma reportHazard_is_no_member : member_named "reportHazard" ApiService = None.
Proof. reflexivity. Qed.

(** Whatever the form holds, submitting it makes no request and never
    ends in the success alert. *)
Lemma handleSubmit_sends_nothing server engine_message f w :
  exists alert,
    handleSubmit server engine_message f w = (Ok ([("Error"%string, alert)], f), w).
Proof.
  unfold handleSubmit.
  destruct (is_empty (hazardType f)); [now eexists|].
  destruct (is_empty (trim (description f))); [now eexists|].
  destruct (negb (truthy (latitude f)) || negb (truthy (longitude f))); [now eexists|].
  destruct (negb (truthy (currentUser f))); [now eexists|].
  now eexists.
Qed.

(** A report without a hazard type is turned down before the service is
    called. *)
Lemma handleSubmit_missing_hazardType server engine_message f w :
  hazardType f = EmptyString ->
  handleSubmit server engine_message f w
  = (Ok ([("Error"%string, VStr "Please select a hazard type.")], f), w).
Proof. intros H. unfold handleSubmit. now rewrite H. Qed.

(** C4.  The service has no [reportHazard]: a complete report, from a
    logged-in user, ends in the error alert with the engine's message for
    calling what is not a function, and no request is made. *)
Theorem handleSubmit_complete_report_fails server engine_message w :
  member_named "reportHazard" ApiService = None
  /\ handleSubmit server engine_message oil_slick w
     = (Ok ([("Error"%string,
              if is_empty (engine_message TypeError) then VStr "Failed to report hazard"
              else VStr (engine_message TypeError))], oil_slick), w).
Proof.
  split; [reflexivity|].
  unfold handleSubmit, try_catch, bind, call, throw, ret. simpl.
  destruct (engine_message TypeError); reflexivity.
Qed.

(** ** The claims at concrete inputs *)

(** C1, as stated, fails: on a stored text that is not JSON,
    [getStoredUser] throws; it does not return null. *)
Lemma getStoredUser_throws_on_malformed :
  getStoredUser (holding garbled) = (Throw (Err SyntaxError), holding garbled)
  /\ getStoredUser (holding garbled) <> (Ok VNull, holding garbled).
Proof.
  assert (H : getStoredUser (holding garbled) = (Throw (Err SyntaxError), holding garbled))
    by (vm_compute; reflexivity).
  split; [exact H|]. rewrite H. discriminate.
Qed.

(** C1 (amended) on an empty storage, on a stored session, and on a stored
    text that is not JSON. *)
Lemma getStoredUser_reads_witness :
  getStoredUser fresh = (Ok VNull, fresh)
  /\ getStoredUser (holding (JSON_stringify tokenless))
     = (Ok tokenless, holding (JSON_stringify tokenless))
  /\ getStoredUser (holding garbled) = (Throw (Err SyntaxError), holding garbled).
Proof.
  split; [|split].
  - apply (proj1 (getStoredUser_reads fresh)). reflexivity.
  - apply (proj1 (proj2 (proj2 (getStoredUser_reads (holding (JSON_stringify tokenless)))))
             (JSON_stringify tokenless)); reflexivity.
  - apply (proj2 (proj2 (proj2 (getStoredUser_reads (holding garbled)))) garbled);
      [reflexivity|discriminate|reflexivity].
Defined.

(** C2, as stated, fails: a persisted session without a token sends no
    header, and with a stored text that is not JSON no request goes out
    at all. *)
Lemma bearer_iff_persisted_fails :
  ~ bearer_iff_persisted nobody (first_request (OpGetWeather "Oslo"))
      (holding (JSON_stringify tokenless))
  /\ ~ bearer_iff_persisted nobody (first_request (OpGetWeather "Oslo"))
         (holding garbled).
Proof.
  split; intros (cfg' & Hs & Hiff).
  - assert (E : sent (snd (api_request nobody (first_request (OpGetWeather "Oslo"))
                             (holding (JSON_stringify tokenless))))
                = [first_request (OpGetWeather "Oslo")]) by (vm_compute; reflexivity).
    rewrite E in Hs. injection Hs as <-.
    destruct Hiff as [_ Hback].
    destruct Hback as [t Ht]; [now eexists|].
    vm_compute in Ht. discriminate.
  - assert (E : sent (snd (api_request nobody (first_request (OpGetWeather "Oslo"))
                             (holding garbled)))
                = []) by (vm_compute; reflexivity).
    rewrite E in Hs. discriminate.
Qed.

(** C2 (amended) on a stored session with a token. *)
Lemma bearer_iff_token_witness :
  exists cfg',
    interceptor (first_request (OpGetWeather "Oslo")) (holding (JSON_stringify ann))
    = (Ok cfg', holding (JSON_stringify ann))
    /\ sent (snd (api_request nobody (first_request (OpGetWeather "Oslo"))
                    (holding (JSON_stringify ann))))
       = sent (holding (JSON_stringify ann)) ++ [cfg']
    /\ req_headers cfg' !! "Authorization"%string
       = (fun t => "Bearer " +:+ t) <$> session_token (storage (holding (JSON_stringify ann)))
    /\ (storage (holding (JSON_stringify ann)) !! "user"%string = None
        -> cfg' = first_request (OpGetWeather "Oslo")).
Proof.
  apply (bearer_iff_token nobody (first_request (OpGetWeather "Oslo"))
           (holding (JSON_stringify ann))); reflexivity.
Defined.

(** C3, as stated, fails: a 2xx response whose body is not the expected
    JSON is returned as it is, without an error; and what a successful
    login returns is the whole body, not the session in it. *)
Lemma login_contract_fails :
  login (answers 200 (VStr "<html>Service unavailable</html>")) ann_credentials fresh
  = (Ok (VStr "<html>Service unavailable</html>"),
     {| storage := empty; sent := [first_request (OpLogin ann_credentials)] |})
  /\ fst (login (answers 200 (VObj [("user"%string, ann)])) ann_credentials fresh)
     = Ok (VObj [("user"%string, ann)])
  /\ fst (login (answers 200 (VObj [("user"%string, ann)])) ann_credentials fresh)
     <> Ok ann.
Proof.
  assert (H : fst (login (answers 200 (VObj [("user"%string, ann)])) ann_credentials fresh)
              = Ok (VObj [("user"%string, ann)])) by (vm_compute; reflexivity).
  split; [vm_compute; reflexivity|]. split; [exact H|]. rewrite H. discriminate.
Qed.

(** C3 (amended) on a login the server turns down with a message. *)
Lemma login_outcomes_witness :
  login (answers 401 (message "Invalid email or password")) ann_credentials fresh
  = (Throw (Val (message "Invalid email or password")),
     {| storage := empty; sent := [] ++ [first_request (OpLogin ann_credentials)] |}).
Proof.
  exact (proj2 (login_outcomes (answers 401 (message "Invalid email or password"))
                  ann_credentials fresh)
           (first_request (OpLogin ann_credentials)) eq_refl).
Defined.

(** C6, as stated, fails: a user whose [id] the server wrote as [1e999]
    has the id Infinity when [login] returns it, and the id null when
    [getStoredUser] returns it. *)
Lemma login_then_getStoredUser_loses_number :
  parse_number (chars "1e999") = Some (Infinity false, [])
  /\ exists w1 session,
       login (answers 200 (VObj [("user"%string, overflowing)])) ann_credentials fresh
       = (Ok (VObj [("user"%string, overflowing)]), w1)
       /\ getStoredUser w1 = (Ok session, w1)
       /\ get_prop overflowing "id" = Some (VNum (Infinity false))
       /\ get_prop session "id" = Some VNull
       /\ session <> overflowing.
Proof.
  split; [vm_compute; reflexivity|].
  eexists. eexists. split; [vm_compute; reflexivity|].
  split; [vm_compute; reflexivity|].
  split; [reflexivity|]. split; [reflexivity|]. discriminate.
Qed.

(** C6 (amended) on a login the server accepts. *)
Lemma login_then_getStoredUser_witness :
  exists w1,
    login (answers 200 (VObj [("user"%string, ann)])) ann_credentials fresh
    = (Ok (VObj [("user"%string, ann)]), w1)
    /\ getStoredUser w1 = (Ok ann, w1).
Proof.
  destruct (login_then_getStoredUser (answers 200 (VObj [("user"%string, ann)]))
              ann_credentials fresh (first_request (OpLogin ann_credentials))
              {| status := 200; data := VObj [("user"%string, ann)] |}
              [("id"%string, VNum (Int 7)); ("name"%string, VStr "Ann");
               ("email"%string, VStr "ann@example.org"); ("token"%string, VStr "s3cr3t")]
              eq_refl eq_refl eq_refl eq_refl eq_refl)
    as (w1 & H1 & _ & H3).
  exists w1. split; [exact H1|]. apply H3. reflexivity.
Defined.

(** C7 on a registration while a session is stored. *)
Lemma only_login_logout_persist_witness :
  storage (snd (invoke (answers 200 (VObj [("user"%string, ann)])) Register
                  ann_credentials (holding (JSON_stringify tokenless))))
  = storage (holding (JSON_stringify tokenless)).
Proof.
  apply (proj2 (proj2 (proj2 (only_login_logout_persist
                                (answers 200 (VObj [("user"%string, ann)])))))); discriminate.
Defined.

(** C8 on a login the server turns down with a message. *)
Lemma failures_surface_witness :
  (length (sent (snd (run (answers 401 (message "Invalid email or password"))
                        (OpLogin ann_credentials) fresh))) <= S (length (sent fresh)))%nat
  /\ ((exists cfg r,
         sent (snd (run (answers 401 (message "Invalid email or password"))
                      (OpLogin ann_credentials) fresh)) = sent fresh ++ [cfg]
         /\ answers 401 (message "Invalid email or password") (sent fresh) cfg = Some r
         /\ validateStatus (status r) = false /\ truthy (data r) = true
         /\ Val (message "Invalid email or password") = Val (data r))
      \/ (Val (message "Invalid email or password")
          = Val (message (fallback (OpLogin ann_credentials)))
          /\ forall cfg r,
               sent (snd (run (answers 401 (message "Invalid email or password"))
                            (OpLogin ann_credentials) fresh)) = sent fresh ++ [cfg] ->
               answers 401 (message "Invalid email or password") (sent fresh) cfg = Some r ->
               truthy (data r) = false)).
Proof.
  apply (proj1 (failures_surface (answers 401 (message "Invalid email or password"))
                  (OpLogin ann_credentials) fresh)).
  vm_compute. reflexivity.
Defined.

(** C9, as stated, fails: with a stored record that is not JSON the
    query does not go out. *)
Lemma getWeather_request_fails : ~ sends_query nobody "Oslo" (holding garbled).
Proof.
  intros (cfg & Hs & _).
  assert (E : sent (snd (getWeather nobody "Oslo" (holding garbled))) = [])
    by (vm_compute; reflexivity).
  rewrite E in Hs. discriminate.
Qed.

(** C9 (amended) on the default query of the weather screen, with a
    stored session and with a stored text that is not JSON. *)
Lemma getWeather_request_witness :
  (exists cfg,
     sent (snd (getWeather nobody "San Diego, CA" (holding (JSON_stringify ann))))
     = sent (holding (JSON_stringify ann)) ++ [cfg]
     /\ req_method cfg = GET
     /\ req_baseURL cfg = API_BASE_URL
     /\ req_url cfg = "/weather/get?q=" +:+ percent_encoded "San Diego, CA"
     /\ req_data cfg = None
     /\ forallb url_safe (chars (percent_encoded "San Diego, CA")) = true
     /\ percent_decode (percent_encoded "San Diego, CA") = Some "San Diego, CA"%string)
  /\ getWeather nobody "San Diego, CA" (holding garbled)
     = (Throw (Val (message "Failed to fetch weather")), holding garbled).
Proof.
  split.
  - apply (proj1 (getWeather_request nobody "San Diego, CA" (holding (JSON_stringify ann))
                    eq_refl)).
    reflexivity.
  - apply (proj2 (getWeather_request nobody "San Diego, CA" (holding garbled) eq_refl)).
    reflexivity.
Defined.

(** C10 on a 2xx answer that holds a message only. *)
Lemma login_without_user_witness :
  login (answers 200 (message "Welcome")) ann_credentials (holding (JSON_stringify tokenless))
  = (Ok (message "Welcome"),
     {| storage := storage (holding (JSON_stringify tokenless));
        sent := sent (holding (JSON_stringify tokenless))
                  ++ [first_request (OpLogin ann_credentials)] |}).
Proof.
  apply (login_without_user (answers 200 (message "Welcome")) ann_credentials
           (holding (JSON_stringify tokenless)) (first_request (OpLogin ann_credentials))
           {| status := 200; data := message "Welcome" |}); reflexivity.
Defined.

(** The default query of the weather screen, as it is transmitted. *)
Example getWeather_encodes :
  encodeURIComponent "San Diego, CA" = "San%20Diego%2C%20CA"%string.
Proof. reflexivity. Qed.

(** * Further properties: the service and the screens together *)

(** ** The service *)

Section Service_properties.

Variable server : list request -> request -> option response.

Lemma run_sent op w cfg' :
  interceptor (first_request op) w = (Ok cfg', w) ->
  sent (snd (run server op w)) = sent w ++ [cfg'].
Proof.
  intros Hi.
  assert (H : snd (api_request server (first_request op) w)
              = {| storage := storage w; sent := sent w ++ [cfg'] |}).
  { unfold api_request, bind. rewrite Hi. apply dispatch_world. }
  destruct (api_request server (first_request op) w) as [[r|e] w1] eqn:E;
    simpl in H; subst w1.
  - destruct (run_answered server op w r _ E) as (w2 & -> & Hs). exact Hs.
  - now rewrite (run_rejected server op w e _ E).
Qed.

Lemma run_not_sent op w e :
  interceptor (first_request op) w = (Throw e, w) ->
  run server op w = (Throw (Val (message (fallback op))), w).
Proof.
  intros He. rewrite (run_rejected server op w e w).
  - unfold surfaced. now rewrite (interceptor_error_has_no_response _ _ _ He).
  - unfold api_request, bind. now rewrite He.
Qed.


(** A stored record the interceptor cannot read blocks the service: every
    operation that needs the server, [login] included, fails with its own
    fallback message, nothing is sent, and the record stays where it is. *)
Theorem unreadable_session_blocks op w :
  session_readable (storage w) = false ->
  run server op w = (Throw (Val (message (fallback op))), w).
Proof.
  intros Hr. destruct (interceptor_unreadable (first_request op) w Hr) as [e He].
  exact (run_not_sent op w e He).
Qed.



(** A [login] changes the storage at the key [user] only, and a [login]
    that fails leaves all of it as it was: the session of before
    survives a failed attempt. *)
Theorem login_frame c w :
  (forall k, k <> "user"%string ->
             storage (snd (login server c w)) !! k = storage w !! k)
  /\ (forall t w', login server c w = (Throw t, w') -> storage w' = storage w).
Proof.
  pose proof (api_request_storage server (defaults POST "/auth/login" (Some c)) w) as Hst.
  destruct (api_request server (defaults POST "/auth/login" (Some c)) w)
    as [[r|e] w1] eqn:E; simpl in Hst.
  - rewrite (login_answered server c w r w1 E). split; [|discriminate].
    intros k Hk. simpl.
    destruct (get_prop (data r) "user") as [u|]; [destruct (truthy u)|];
      simpl; rewrite <- ?Hst; try reflexivity.
    now apply lookup_insert_ne.
  - rewrite (login_rejected server c w e w1 E). split.
    + intros k _. simpl. now rewrite Hst.
    + now intros t w' [= _ <-].
Qed.

(** The interceptor touches nothing but the [Authorization] header, so
    every request the service makes goes to the fixed base URL with the
    method, the path and the body the operation gave it.  On the wire it
    carries [Content-Type: application/json] exactly when it has a body:
    the requests of [login] and [register] do, the request of
    [getWeather] does not; the [Authorization] header goes out as the
    interceptor set it. *)
Theorem requests_keep_their_shape op w :
  sent (snd (run server op w)) = sent w
  \/ exists cfg,
       sent (snd (run server op w)) = sent w ++ [cfg]
       /\ req_method cfg = req_method (first_request op)
       /\ req_baseURL cfg = API_BASE_URL
       /\ req_url cfg = req_url (first_request op)
       /\ req_data cfg = req_data (first_request op)
       /\ req_headers (transmitted cfg) !! "Content-Type"%string
          = match op with
            | OpLogin _ | OpRegister _ => Some "application/json"%string
            | OpGetWeather _ => None
            end
       /\ req_headers (transmitted cfg) !! "Authorization"%string
          = req_headers cfg !! "Authorization"%string.
Proof.
  destruct (session_readable (storage w)) eqn:Hr.
  - right. pose proof (interceptor_readable (first_request op) w Hr) as Hi.
    eexists. split; [exact (run_sent op w _ Hi)|].
    destruct (session_token (storage w)); destruct op; repeat split.
  - left. destruct (interceptor_unreadable (first_request op) w Hr) as [e He].
    now rewrite (run_not_sent op w e He).
Qed.

(** The screen and the interceptor read the same record: when
    [getStoredUser] returns null the request goes out as it is, when it
    returns a user whose token is a non-empty string the request carries
    that token, and when it throws no request can be made. *)
Theorem stored_user_is_the_bearer cfg w :
  (getStoredUser w = (Ok VNull, w) -> interceptor cfg w = (Ok cfg, w))
  /\ (forall user t,
        getStoredUser w = (Ok user, w) ->
        get_prop user "token" = Some (VStr t) -> t <> EmptyString ->
        interceptor cfg w = (Ok (set_header "Authorization" ("Bearer " +:+ t) cfg), w))
  /\ (forall e, getStoredUser w = (Throw e, w) ->
                interceptor cfg w = (Throw SyntaxError, w)).
Proof.
  unfold getStoredUser, interceptor, bind, getItem, ret, throw.
  destruct (storage w !! "user"%string) as [s|].
  - destruct (is_empty s).
    + repeat split; try discriminate.
      intros user t [= <-]. discriminate.
    + destruct (JSON_parse s) as [v|].
      * repeat split; try discriminate.
        -- now intros [= ->].
        -- intros user t [= ->] Ht Hne. rewrite Ht, (get_prop_truthy _ _ _ Ht). simpl.
           destruct t; [congruence|reflexivity].
      * repeat split; discriminate.
  - repeat split; try discriminate.
    intros user t [= <-]. discriminate.
Qed.

End Service_properties.

(** ** Trimming *)

Lemma chars_append a b : chars (a +:+ b) = chars a ++ chars b.
Proof. unfold chars. induction a as [|c a IH]; simpl; [reflexivity|]. now f_equal. Qed.



Lemma trim_start_white n : forall l,
  (length l <= n)%nat -> white_chars l = true -> trim_start l = [].
Proof.
  induction n as [|n IH]; intros l Hn H.
  - destruct l; [reflexivity|simpl in Hn; lia].
  - destruct l as [|a r]; [reflexivity|]. simpl in Hn.
    change (white_chars (a :: r))
      with (if space1 a then white_chars r
            else match r with
                 | [] => false
                 | b :: r2 =>
                     if space2 a b then white_chars r2
                     else match r2 with
                          | [] => false
                          | c :: r3 => space3 a b c && white_chars r3
                          end
                 end) in H.
    change (trim_start (a :: r))
      with (if space1 a then trim_start r
            else match r with
                 | [] => a :: r
                 | b :: r2 =>
                     if space2 a b then trim_start r2
                     else match r2 with
                          | [] => a :: r
                          | c :: r3 => if space3 a b c then trim_start r3 else a :: r
                          end
                 end).
    destruct (space1 a); [apply IH; [lia|exact H]|].
    destruct r as [|b r2]; [discriminate|]. simpl in Hn.
    destruct (space2 a b); [apply IH; [lia|exact H]|].
    destruct r2 as [|c r3]; [discriminate|]. simpl in Hn.
    apply andb_prop in H as [H1 H2]. rewrite H1.
    apply IH; [lia|exact H2].
Qed.

(** A text of white space only is trimmed to nothing. *)
Lemma trim_white s : white s = true -> trim s = EmptyString.
Proof.
  unfold white, trim. intros H.
  now rewrite (trim_start_white _ _ (le_n _) H).
Qed.














(** ** The hazard report screen *)

Section Hazard_properties.

Variable server : list request -> request -> option response.
Variable engine_message : error -> string.

(** A description of nothing but white space counts as no description:
    the report is turned down before anything else is looked at. *)
Theorem handleSubmit_blank_description f w :
  hazardType f <> EmptyString ->
  white (description f) = true ->
  handleSubmit server engine_message f w
  = (Ok ([("Error"%string, VStr "Please provide a description.")], f), w).
Proof.
  intros Ht Hb. unfold handleSubmit.
  destruct (hazardType f); [congruence|]. simpl is_empty. cbv iota.
  now rewrite (trim_white _ Hb).
Qed.

(** A position on the equator or on the prime meridian is captured with
    the success alert, and then the report is turned down as if no
    position had been captured: a coordinate of 0 counts as missing. *)
Theorem handleSubmit_zero_coordinate dev f w lat lon :
  filled f = true ->
  position dev = Some (lat, lon) ->
  lat = Int 0 \/ lon = Int 0 ->
  fst (getCurrentLocation dev f)
  = [("Success"%string, VStr "Location captured successfully!")]
  /\ handleSubmit server engine_message (snd (getCurrentLocation dev f)) w
     = (Ok ([("Error"%string, VStr "Please capture your location first.")],
            snd (getCurrentLocation dev f)), w).
Proof.
  unfold filled, getCurrentLocation. intros Hf -> Hz.
  apply andb_true_iff in Hf as [H1 H2].
  apply negb_true_iff in H1. apply negb_true_iff in H2.
  split; [reflexivity|]. unfold handleSubmit. simpl. rewrite H1, H2.
  destruct Hz as [-> | ->]; [reflexivity|].
  now rewrite orb_true_r.
Qed.

(** With no session in the storage the screen loads no user, and a report
    that lacks nothing else is turned down for that reason alone. *)
Theorem loadUser_without_session f w :
  storage w !! "user"%string = None ->
  filled f = true ->
  truthy (latitude f) = true -> truthy (longitude f) = true ->
  exists f',
    loadUser f w = (Ok f', w)
    /\ currentUser f' = VNull
    /\ handleSubmit server engine_message f' w
       = (Ok ([("Error"%string, VStr "You must be logged in to report a hazard.")], f'), w).
Proof.
  unfold filled. intros Hs Hf Hla Hlo.
  apply andb_true_iff in Hf as [H1 H2].
  apply negb_true_iff in H1. apply negb_true_iff in H2.
  eexists. split; [|split].
  - unfold loadUser, getStoredUser, bind, getItem, ret. now rewrite Hs.
  - reflexivity.
  - unfold handleSubmit. simpl. now rewrite H1, H2, Hla, Hlo.
Qed.

(** The user the screen loads is the user a login has stored: after a
    [login] the server accepts with a user object, [loadUser] puts that
    object, as JSON text keeps it, into the form, and the [user_id] of a
    report is its [id] as it is kept: null where the server wrote a
    number that is not finite. *)
Theorem login_then_loadUser c w cfg' r ps f :
  interceptor (defaults POST "/auth/login" (Some c)) w = (Ok cfg', w) ->
  server (sent w) cfg' = Some r ->
  validateStatus (status r) = true ->
  get_prop (data r) "user" = Some (VObj ps) ->
  well_formed (VObj ps) = true ->
  exists w1 f',
    login server c w = (Ok (data r), w1)
    /\ loadUser f w1 = (Ok f', w1)
    /\ currentUser f' = kept (VObj ps)
    /\ get_prop (hazardData f') "user_id" = option_map kept (get_prop (VObj ps) "id")
    /\ (lossless (VObj ps) = true -> currentUser f' = VObj ps).
Proof.
  intros Hi Hs Hv Hu Hwf.
  pose proof (api_request_answered server _ _ _ _ Hi Hs) as H. rewrite Hv in H.
  apply login_answered in H. rewrite Hu in H. simpl in H.
  eexists. eexists. split; [exact H|].
  unfold loadUser, bind. rewrite getStoredUser_persist by exact Hwf.
  split; [reflexivity|]. split; [reflexivity|]. split.
  - unfold hazardData. cbn [currentUser]. rewrite get_prop_kept.
    destruct (get_prop (VObj ps) "id"); reflexivity.
  - intros Hl. cbn [currentUser]. now apply kept_lossless.
Qed.

End Hazard_properties.

(** ** The weather screen *)

Section Weather_properties.

Import WeatherScreen.

Variable server : list request -> request -> option response.
Variable engine_message : error -> string.

Lemma or_else_truthy o d : truthy d = true -> truthy (or_else o d) = true.
Proof.
  intros H. destruct o as [v|]; simpl; [|exact H].
  destruct (truthy v) eqn:E; [exact E|exact H].
Qed.

Lemma getWeather_sent q w :
  (length (sent (snd (getWeather server q w))) <= S (length (sent w)))%nat.
Proof.
  destruct (session_readable (storage w)) eqn:Hr.
  - pose proof (run_sent server (OpGetWeather q) w _
                  (interceptor_readable (first_request (OpGetWeather q)) w Hr)) as H.
    simpl in H. rewrite H, length_app. simpl. lia.
  - destruct (interceptor_unreadable (first_request (OpGetWeather q)) w Hr) as [e He].
    pose proof (run_not_sent server (OpGetWeather q) w e He) as H. simpl in H.
    rewrite H. simpl. lia.
Qed.

(** What [fetchWeather] does, by what [getWeather] does. *)
Lemma fetchWeather_cases q st w :
  fetchWeather server engine_message q st w
  = (Ok match fst (getWeather server q w) with
        | Ok data => shown data st
        | Throw err =>
            failed (or_else (thrown_message engine_message err)
                      (VStr "Failed to fetch weather data. Is the PHP server running?")) st
        end,
     snd (getWeather server q w)).
Proof.
  unfold fetchWeather, try_catch, bind, ret.
  destruct (getWeather server q w) as [[data|err] w1]; reflexivity.
Qed.

(** [fetchWeather] never throws and never leaves the screen loading.  It
    makes one request at most and does not touch the storage.  The screen
    ends either with what [getWeather] returned as its data, no error and
    no alert, or, when [getWeather] threw, with no data and a non-empty
    error message, which is the one alerted. *)
Theorem fetchWeather_settles q st w :
  exists alerts st' w',
    fetchWeather server engine_message q st w = (Ok (alerts, st'), w')
    /\ loading st' = false
    /\ searchQuery st' = searchQuery st
    /\ storage w' = storage w
    /\ (length (sent w') <= S (length (sent w)))%nat
    /\ ((alerts = [] /\ errorMessage st' = VNull
         /\ fst (getWeather server q w) = Ok (weatherData st'))
        \/ (alerts = [("Error"%string, errorMessage st')]
            /\ truthy (errorMessage st') = true
            /\ weatherData st' = VNull
            /\ exists err, fst (getWeather server q w) = Throw err)).
Proof.
  rewrite fetchWeather_cases.
  pose proof (run_storage server (OpGetWeather q) w) as Hst.
  pose proof (getWeather_sent q w) as Hlen. simpl in Hst.
  destruct (getWeather server q w) as [[data|err] w1]; simpl in *.
  - do 3 eexists. split; [reflexivity|]. repeat split; try assumption. now left.
  - do 3 eexists. split; [reflexivity|]. repeat split; try assumption.
    right. repeat split; [now apply or_else_truthy|now exists err].
Qed.


(** A query of nothing but white space is not searched for: nothing is
    sent and the screen stays as it is. *)
Theorem handleSearch_blank st w :
  white (searchQuery st) = true ->
  handleSearch server engine_message st w = (Ok ([], st), w).
Proof. intros Hb. unfold handleSearch. now rewrite (trim_white _ Hb). Qed.

Lemma encode_chars_app a b : encode_chars (a ++ b) = encode_chars a ++ encode_chars b.
Proof.
  induction a as [|c a IH]; [reflexivity|]. simpl. now rewrite IH, List.app_assoc.
Qed.

Lemma text_app a b : text (a ++ b) = text a +:+ text b.
Proof. unfold text. induction a as [|c a IH]; simpl; [reflexivity|]. now rewrite IH. Qed.

Lemma fetchWeather_unreadable q st w :
  session_readable (storage w) = false ->
  fetchWeather server engine_message q st w
  = (Ok (failed (VStr "Failed to fetch weather") st), w).
Proof.
  intros Hr. rewrite fetchWeather_cases.
  destruct (interceptor_unreadable (first_request (OpGetWeather q)) w Hr) as [e He].
  pose proof (run_not_sent server (OpGetWeather q) w e He) as H. simpl in H.
  now rewrite H.
Qed.

Lemma encodeURIComponent_app a b :
  encodeURIComponent (a +:+ b) = encodeURIComponent a +:+ encodeURIComponent b.
Proof.
  unfold encodeURIComponent. now rewrite chars_append, encode_chars_app, text_app.
Qed.


(** The screen asks for the weather of the current position only with
    the permission, where one is needed, and with a position: otherwise
    nothing is sent, no alert is shown, the data stay, and an error
    message is set.  In no case does the handler throw or touch the
    storage. *)
Theorem handleCurrentLocation_asks_first dev st w :
  exists alerts st' w',
    handleCurrentLocation server engine_message dev st w = (Ok (alerts, st'), w')
    /\ storage w' = storage w
    /\ ((android dev = true /\ permission_answer dev <> Granted) \/ position dev = None ->
        w' = w /\ alerts = [] /\ weatherData st' = weatherData st
        /\ truthy (errorMessage st') = true).
Proof.
  unfold handleCurrentLocation, locate.
  assert (Hf : forall q,
    exists alerts st' w',
      fetchWeather server engine_message q st w = (Ok (alerts, st'), w')
      /\ storage w' = storage w).
  { intros q. rewrite fetchWeather_cases.
    pose proof (run_storage server (OpGetWeather q) w) as Hst. simpl in Hst.
    destruct (fst (getWeather server q w)); do 3 eexists; split; try reflexivity; exact Hst. }
  destruct (android dev) eqn:Ea; [destruct (permission_answer dev) eqn:Ep|];
    try (do 3 eexists; split; [reflexivity|]; split; [reflexivity|];
         intros _; repeat split; reflexivity).
  all: destruct (position dev) as [[lat lon]|] eqn:Epos.
  all: try (do 3 eexists; split; [reflexivity|]; split; [reflexivity|];
            intros _; repeat split; reflexivity).
  all: destruct (Hf (position_query lat lon)) as (alerts & st' & w' & E & Hs);
       exists alerts, st', w'; split; [exact E|]; split; [exact Hs|].
  all: intros [[H1 H2]|H]; congruence.
Qed.

(** With the permission and a position: when the stored record can be
    read, the request asks for latitude and longitude as the engine prints
    them, percent-encoded and separated by an encoded comma; when it
    cannot, nothing is sent and the screen shows the failure of the
    service. *)
Theorem handleCurrentLocation_query dev st w lat lon :
  android dev = false \/ permission_answer dev = Granted ->
  position dev = Some (lat, lon) ->
  (session_readable (storage w) = true ->
   exists cfg,
     sent (snd (handleCurrentLocation server engine_message dev st w)) = sent w ++ [cfg]
     /\ req_url cfg
        = "/weather/get?q=" +:+ percent_encoded (text (number_chars lat))
            +:+ "%2C" +:+ percent_encoded (text (number_chars lon))
     /\ percent_decode (percent_encoded (position_query lat lon))
        = Some (position_query lat lon))
  /\ (session_readable (storage w) = false ->
      handleCurrentLocation server engine_message dev st w
      = (Ok (failed (VStr "Failed to fetch weather") st), w)).
Proof.
  intros Hp Hpos.
  assert (E : handleCurrentLocation server engine_message dev st w
              = fetchWeather server engine_message (position_query lat lon) st w).
  { unfold handleCurrentLocation, locate. rewrite Hpos.
    destruct Hp as [-> | ->]; [reflexivity|]. now destruct (android dev). }
  rewrite E. split; intros Hr; [|now apply fetchWeather_unreadable].
  rewrite fetchWeather_cases. cbn [snd].
  pose proof (interceptor_readable
                (first_request (OpGetWeather (position_query lat lon))) w Hr) as Hi.
  eexists. split; [exact (run_sent server (OpGetWeather (position_query lat lon)) w _ Hi)|].
  rewrite <- !encodeURIComponent_spec.
  split; [|apply percent_decode_encode].
  transitivity (req_url (first_request (OpGetWeather (position_query lat lon))));
    [destruct (session_token (storage w)); reflexivity|].
  simpl. f_equal. unfold position_query.
  now rewrite !encodeURIComponent_app.
Qed.

End Weather_properties.

(** ** The login and registration form *)

Section App_properties.

Import App.

Variable network : fetch_call -> option fetch_response.
Variable engine_text : failure -> string.

Lemma is_empty_iff s : is_empty s = false <-> s <> EmptyString.
Proof. destruct s; simpl; split; congruence. Qed.

(** [handleLogin] calls the server once when both fields are filled in
    and not at all otherwise.  The call is a POST of JSON to the login
    address, and the credentials arrive as they were typed, whatever
    characters they hold: the body reads back as the very object. *)
Theorem handleLogin_sends_credentials st :
  calls (handleLogin network engine_text st)
  = (if is_empty (email st) || is_empty (password st) then [] else [login_call st])
  /\ fetch_url (login_call st) = "http://192.168.0.100/php_api/auth/login"%string
  /\ fetch_method (login_call st) = POST
  /\ fetch_headers (login_call st) !! "Content-Type"%string = Some "application/json"%string
  /\ JSON_parse (fetch_body (login_call st))
     = Some (VObj [("email"%string, VStr (email st));
                   ("password"%string, VStr (password st))]).
Proof.
  split; [|repeat split].
  - unfold handleLogin.
    destruct (is_empty (email st) || is_empty (password st)); [reflexivity|].
    cbv zeta. destruct (network (login_call st)) as [response|]; [|reflexivity].
    destruct (JSON_parse (fetch_text response)) as [data|]; [|reflexivity].
    destruct (is_null data); [reflexivity|].
    destruct (ok response && truthy_opt (get_prop data "user")); reflexivity.
  - now apply JSON_parse_stringify_lossless.
Qed.

(** The same for [handleRegister], with the name, the e-mail address and
    the password. *)
Theorem handleRegister_sends_fields st :
  calls (handleRegister network engine_text st)
  = (if is_empty (name st) || is_empty (email st) || is_empty (password st)
     then [] else [register_call st])
  /\ fetch_url (register_call st) = "http://192.168.0.100/php_api/auth/register"%string
  /\ fetch_method (register_call st) = POST
  /\ JSON_parse (fetch_body (register_call st))
     = Some (VObj [("name"%string, VStr (name st)); ("email"%string, VStr (email st));
                   ("password"%string, VStr (password st))]).
Proof.
  split; [|repeat split].
  - unfold handleRegister.
    destruct (is_empty (name st) || is_empty (email st) || is_empty (password st));
      [reflexivity|].
    cbv zeta. destruct (network (register_call st)) as [response|]; [|reflexivity].
    destruct (JSON_parse (fetch_text response)) as [data|]; [|reflexivity].
    destruct (is_null data); [reflexivity|].
    destruct (ok response); reflexivity.
  - now apply JSON_parse_stringify_lossless.
Qed.

(** From the form, the weather screen is reached exactly when both fields
    are filled in, the server answers in the 2xx range, the body is JSON
    and holds a truthy [user]; that user is then the logged-in user.  A
    2xx status alone does not log in. *)
Theorem handleLogin_logs_in_iff st :
  isLoggedIn st = false ->
  shows_weather (after (handleLogin network engine_text st)) = true
  <-> exists response data user,
        email st <> EmptyString /\ password st <> EmptyString
        /\ network (login_call st) = Some response
        /\ ok response = true
        /\ JSON_parse (fetch_text response) = Some data
        /\ get_prop data "user" = Some user
        /\ truthy user = true
        /\ loggedInUser (after (handleLogin network engine_text st)) = user.
Proof.
  intros Hout. unfold handleLogin, shows_weather.
  assert (Hno : forall s : state,
            isLoggedIn s = isLoggedIn st ->
            isLoggedIn s && truthy (loggedInUser s) = true -> False).
  { intros s ->. rewrite Hout. discriminate. }
  destruct (is_empty (email st)) eqn:Ee; simpl orb; cbv iota.
  { split; [intros H; exact (False_ind _ (Hno _ eq_refl H))|].
    intros (r & d & u & He & _). apply is_empty_iff in He. congruence. }
  destruct (is_empty (password st)) eqn:Ep; cbv iota.
  { split; [intros H; exact (False_ind _ (Hno _ eq_refl H))|].
    intros (r & d & u & _ & Hp & _). apply is_empty_iff in Hp. congruence. }
  apply is_empty_iff in Ee. apply is_empty_iff in Ep. cbv zeta.
  destruct (network (login_call st)) as [response|] eqn:En.
  2:{ split; [intros H; exact (False_ind _ (Hno _ eq_refl H))|].
      intros (r & d & u & _ & _ & H & _). discriminate. }
  destruct (JSON_parse (fetch_text response)) as [data|] eqn:Ej.
  2:{ split; [intros H; exact (False_ind _ (Hno _ eq_refl H))|].
      intros (r & d & u & _ & _ & [= <-] & _ & H & _). congruence. }
  destruct (is_null data) eqn:Enull.
  { split; [intros H; exact (False_ind _ (Hno _ eq_refl H))|].
    intros (r & d & u & _ & _ & [= <-] & _ & H & Hu & _).
    destruct data; try discriminate. rewrite Ej in H. injection H as <-. discriminate. }
  destruct (ok response) eqn:Eok; simpl andb.
  2:{ split; [intros H; exact (False_ind _ (Hno _ eq_refl H))|].
      intros (r & d & u & _ & _ & [= <-] & H & _). congruence. }
  destruct (get_prop data "user") as [user|] eqn:Eu; simpl truthy_opt.
  2:{ split; [intros H; exact (False_ind _ (Hno _ eq_refl H))|].
      intros (r & d & u & _ & _ & [= <-] & _ & H & Hu & _). congruence. }
  destruct (truthy user) eqn:Et.
  - cbn [after isLoggedIn loggedInUser]. rewrite Et. split; [|reflexivity].
    intros _. exists response, data, user. repeat split; assumption.
  - split; [intros H; exact (False_ind _ (Hno _ eq_refl H))|].
    intros (r & d & u & _ & _ & [= <-] & _ & H & Hu & Htu & _). congruence.
Qed.

(** [handleLogin] either logs in, without an alert, or shows one error
    alert with a non-empty message and leaves the session as it was; what
    was typed into the form is kept in both cases. *)
Theorem handleLogin_outcomes st :
  name (after (handleLogin network engine_text st)) = name st
  /\ email (after (handleLogin network engine_text st)) = email st
  /\ password (after (handleLogin network engine_text st)) = password st
  /\ isLogin (after (handleLogin network engine_text st)) = isLogin st
  /\ ((alerts (handleLogin network engine_text st) = []
       /\ isLoggedIn (after (handleLogin network engine_text st)) = true
       /\ truthy (loggedInUser (after (handleLogin network engine_text st))) = true)
      \/ (exists m,
            alerts (handleLogin network engine_text st) = [("Error"%string, Some m)]
            /\ truthy m = true
            /\ isLoggedIn (after (handleLogin network engine_text st)) = isLoggedIn st
            /\ loggedInUser (after (handleLogin network engine_text st))
               = loggedInUser st)).
Proof.
  unfold handleLogin.
  destruct (is_empty (email st) || is_empty (password st)).
  { repeat split. right. eexists. repeat split. }
  cbv zeta. destruct (network (login_call st)) as [response|].
  2:{ repeat split. right. eexists. repeat split. }
  destruct (JSON_parse (fetch_text response)) as [data|].
  2:{ repeat split. right. eexists. repeat split. }
  destruct (is_null data).
  { repeat split. right. eexists. repeat split. }
  destruct (ok response); simpl andb.
  2:{ repeat split. right. eexists. repeat split. now apply or_else_truthy. }
  destruct (get_prop data "user") as [user|]; simpl truthy_opt.
  2:{ repeat split. right. eexists. repeat split. now apply or_else_truthy. }
  destruct (truthy user) eqn:Et.
  - repeat split. left. repeat split. exact Et.
  - repeat split. right. eexists. repeat split. now apply or_else_truthy.
Qed.

(** [handleRegister] never logs in.  When the server accepts, the name,
    the e-mail address and the password are emptied and the form is
    turned to the login tab, so that a login right after it calls
    nothing; in every other case one error alert with a non-empty message
    is shown and the form is kept. *)
Theorem handleRegister_outcomes st :
  isLoggedIn (after (handleRegister network engine_text st)) = isLoggedIn st
  /\ loggedInUser (after (handleRegister network engine_text st)) = loggedInUser st
  /\ ((exists m,
         alerts (handleRegister network engine_text st) = [("Success"%string, m)]
         /\ isLogin (after (handleRegister network engine_text st)) = true
         /\ name (after (handleRegister network engine_text st)) = EmptyString
         /\ email (after (handleRegister network engine_text st)) = EmptyString
         /\ password (after (handleRegister network engine_text st)) = EmptyString
         /\ calls (handleLogin network engine_text
                     (after (handleRegister network engine_text st))) = [])
      \/ (exists m,
            alerts (handleRegister network engine_text st) = [("Error"%string, Some m)]
            /\ truthy m = true
            /\ name (after (handleRegister network engine_text st)) = name st
            /\ email (after (handleRegister network engine_text st)) = email st
            /\ password (after (handleRegister network engine_text st)) = password st
            /\ isLogin (after (handleRegister network engine_text st)) = isLogin st)).
Proof.
  unfold handleRegister.
  destruct (is_empty (name st) || is_empty (email st) || is_empty (password st)).
  { repeat split. right. eexists. repeat split. }
  cbv zeta. destruct (network (register_call st)) as [response|].
  2:{ repeat split. right. eexists. repeat split. }
  destruct (JSON_parse (fetch_text response)) as [data|].
  2:{ repeat split. right. eexists. repeat split. }
  destruct (is_null data).
  { repeat split. right. eexists. repeat split. }
  destruct (ok response).
  - repeat split. left. eexists. repeat split.
  - repeat split. right. eexists. repeat split. now apply or_else_truthy.
Qed.

(** After [handleLogout] the form is shown again with the e-mail address
    and the password emptied: a login right after it calls nothing and
    asks for the fields. *)
Theorem handleLogout_then_handleLogin st :
  shows_weather (handleLogout st) = false
  /\ handleLogin network engine_text (handleLogout st)
     = {| alerts := [("Error"%string, Some (VStr "Please fill all fields for login."))];
          after := handleLogout st; calls := [] |}.
Proof. split; reflexivity. Qed.

End App_properties.

(** ** The further properties at concrete inputs *)

(** A record that is not JSON blocks the weather request. *)
Lemma unreadable_session_blocks_witness :
  run nobody (OpGetWeather "Oslo") (holding garbled)
  = (Throw (Val (message (fallback (OpGetWeather "Oslo")))), holding garbled).
Proof.
  apply (unreadable_session_blocks nobody (OpGetWeather "Oslo") (holding garbled)).
  reflexivity.
Defined.


(** A login that is turned down leaves the stored session. *)
Lemma login_frame_witness :
  storage (snd (login (answers 200 (VObj [("user"%string, ann)])) ann_credentials fresh))
    !! "theme"%string
  = storage fresh !! "theme"%string
  /\ storage {| storage := storage (holding (JSON_stringify tokenless));
                sent := [first_request (OpLogin ann_credentials)] |}
     = storage (holding (JSON_stringify tokenless)).
Proof.
  split.
  - apply (proj1 (login_frame (answers 200 (VObj [("user"%string, ann)]))
                    ann_credentials fresh)).
    discriminate.
  - apply (proj2 (login_frame (answers 401 (message "Invalid email or password"))
                    ann_credentials (holding (JSON_stringify tokenless)))
             (Val (message "Invalid email or password"))).
    vm_compute. reflexivity.
Defined.

(** Nothing stored, Ann's session stored, and a record that is not JSON. *)
Lemma stored_user_is_the_bearer_witness :
  interceptor (first_request (OpGetWeather "Oslo")) fresh
  = (Ok (first_request (OpGetWeather "Oslo")), fresh)
  /\ interceptor (first_request (OpGetWeather "Oslo")) (holding (JSON_stringify ann))
     = (Ok (set_header "Authorization" ("Bearer " +:+ "s3cr3t")
              (first_request (OpGetWeather "Oslo"))),
        holding (JSON_stringify ann))
  /\ interceptor (first_request (OpGetWeather "Oslo")) (holding garbled)
     = (Throw SyntaxError, holding garbled).
Proof.
  split; [|split].
  - apply (proj1 (stored_user_is_the_bearer (first_request (OpGetWeather "Oslo")) fresh)).
    reflexivity.
  - apply (proj1 (proj2 (stored_user_is_the_bearer (first_request (OpGetWeather "Oslo"))
                           (holding (JSON_stringify ann)))) ann "s3cr3t");
      [reflexivity|reflexivity|discriminate].
  - apply (proj2 (proj2 (stored_user_is_the_bearer (first_request (OpGetWeather "Oslo"))
                           (holding garbled))) (Err SyntaxError)).
    reflexivity.
Defined.

(** A description of a space, a no-break space and a tab. *)
Lemma handleSubmit_blank_description_witness :
  handleSubmit nobody plain_message only_spaces fresh
  = (Ok ([("Error"%string, VStr "Please provide a description.")], only_spaces), fresh).
Proof.
  apply (handleSubmit_blank_description nobody plain_message only_spaces fresh);
    [discriminate|reflexivity].
Defined.

(** A report from the equator. *)
Lemma handleSubmit_zero_coordinate_witness :
  fst (getCurrentLocation on_the_equator unlocated)
  = [("Success"%string, VStr "Location captured successfully!")]
  /\ handleSubmit nobody plain_message (snd (getCurrentLocation on_the_equator unlocated)) fresh
     = (Ok ([("Error"%string, VStr "Please capture your location first.")],
            snd (getCurrentLocation on_the_equator unlocated)), fresh).
Proof.
  apply (handleSubmit_zero_coordinate nobody plain_message on_the_equator unlocated fresh
           (Int 0) (Dec (-15) 1));
    [reflexivity|reflexivity|left; reflexivity].
Defined.

(** The screen opened on a device that holds no session. *)
Lemma loadUser_without_session_witness :
  exists f',
    loadUser oil_slick fresh = (Ok f', fresh)
    /\ currentUser f' = VNull
    /\ handleSubmit nobody plain_message f' fresh
       = (Ok ([("Error"%string, VStr "You must be logged in to report a hazard.")], f'),
          fresh).
Proof.
  apply (loadUser_without_session nobody plain_message oil_slick fresh); reflexivity.
Defined.

(** Ann logs in and opens the report screen. *)
Lemma login_then_loadUser_witness :
  exists w1 f',
    login (answers 200 (VObj [("user"%string, ann)])) ann_credentials fresh
    = (Ok (VObj [("user"%string, ann)]), w1)
    /\ loadUser unlocated w1 = (Ok f', w1)
    /\ currentUser f' = ann
    /\ get_prop (hazardData f') "user_id" = Some (VNum (Int 7)).
Proof.
  destruct (login_then_loadUser (answers 200 (VObj [("user"%string, ann)]))
              ann_credentials fresh (first_request (OpLogin ann_credentials))
              {| status := 200; data := VObj [("user"%string, ann)] |}
              [("id"%string, VNum (Int 7)); ("name"%string, VStr "Ann");
               ("email"%string, VStr "ann@example.org"); ("token"%string, VStr "s3cr3t")]
              unlocated eq_refl eq_refl eq_refl eq_refl eq_refl)
    as (w1 & f' & H1 & H2 & _ & H4 & H5).
  exists w1, f'. split; [exact H1|]. split; [exact H2|].
  split; [apply H5; reflexivity|exact H4].
Defined.


(** A query of a space and an ideographic space. *)
Lemma handleSearch_blank_witness :
  WeatherScreen.handleSearch nobody plain_message
    (searching (text (" "%char :: utf8 12288))) fresh
  = (Ok ([], searching (text (" "%char :: utf8 12288))), fresh).
Proof.
  apply (handleSearch_blank nobody plain_message
           (searching (text (" "%char :: utf8 12288))) fresh).
  reflexivity.
Defined.


(** The permission refused. *)
Lemma handleCurrentLocation_asks_first_witness :
  exists alerts st' w',
    WeatherScreen.handleCurrentLocation nobody plain_message without_permission
      (searching EmptyString) fresh
    = (Ok (alerts, st'), w')
    /\ storage w' = storage fresh
    /\ ((android without_permission = true /\ permission_answer without_permission <> Granted)
        \/ position without_permission = None ->
        w' = fresh /\ alerts = []
        /\ WeatherScreen.weatherData st' = WeatherScreen.weatherData (searching EmptyString)
        /\ truthy (WeatherScreen.errorMessage st') = true).
Proof.
  exact (handleCurrentLocation_asks_first nobody plain_message without_permission
           (searching EmptyString) fresh).
Defined.

(** The weather of the current position, in San Diego, on an empty
    storage and with a stored text that is not JSON. *)
Lemma handleCurrentLocation_query_witness :
  (exists cfg,
     sent (snd (WeatherScreen.handleCurrentLocation nobody plain_message in_san_diego
                  (searching EmptyString) fresh))
     = sent fresh ++ [cfg]
     /\ req_url cfg
        = "/weather/get?q=" +:+ percent_encoded (text (number_chars (Dec 327157 4)))
            +:+ "%2C" +:+ percent_encoded (text (number_chars (Dec (-1171611) 4)))
     /\ percent_decode
          (percent_encoded (WeatherScreen.position_query (Dec 327157 4) (Dec (-1171611) 4)))
        = Some (WeatherScreen.position_query (Dec 327157 4) (Dec (-1171611) 4)))
  /\ WeatherScreen.handleCurrentLocation nobody plain_message in_san_diego
       (searching EmptyString) (holding garbled)
     = (Ok (WeatherScreen.failed (VStr "Failed to fetch weather") (searching EmptyString)),
        holding garbled).
Proof.
  split.
  - apply (proj1 (handleCurrentLocation_query nobody plain_message in_san_diego
                    (searching EmptyString) fresh (Dec 327157 4) (Dec (-1171611) 4)
                    (or_intror eq_refl) eq_refl)).
    reflexivity.
  - apply (proj2 (handleCurrentLocation_query nobody plain_message in_san_diego
                    (searching EmptyString) (holding garbled)
                    (Dec 327157 4) (Dec (-1171611) 4) (or_intror eq_refl) eq_refl)).
    reflexivity.
Defined.

(** Ann's credentials, accepted. *)
Lemma handleLogin_logs_in_iff_witness :
  App.shows_weather (App.after (App.handleLogin accepting plain_text typed_in)) = true
  <-> exists response data user,
        App.email typed_in <> EmptyString /\ App.password typed_in <> EmptyString
        /\ accepting (App.login_call typed_in) = Some response
        /\ App.ok response = true
        /\ JSON_parse (App.fetch_text response) = Some data
        /\ get_prop data "user" = Some user
        /\ truthy user = true
        /\ App.loggedInUser (App.after (App.handleLogin accepting plain_text typed_in)) = user.
Proof.
  apply (handleLogin_logs_in_iff accepting plain_text typed_in). reflexivity.
Defined.

(** The position of the weather request in San Diego, as it is sent. *)
Example position_query_encodes :
  encodeURIComponent (WeatherScreen.position_query (Dec 327157 4) (Dec (-1171611) 4))
  = "32.7157%2C-117.1611"%string.
Proof. reflexivity. Qed.
